(** * Ragzy chat backend: the conversation tree, its three cache tiers and
    the deletion coordinator, as a shallow embedding of
    [backend/app/services/chat_service.py] and
    [backend/app/services/redis_service.py]. *)

From Stdlib Require Import ZArith List String Ascii Bool Lia Sorted Permutation.
Import ListNotations.
Open Scope Z_scope.

(** ** Python helpers *)
Module Py.

(** [sub in s] for two Python [str]. *)
Definition str_in (sub s : string) : bool :=
  match String.index 0 sub s with Some _ => true | None => false end.

(** Python slice [xs[i:]] for an int [i] (negative counts from the end). *)
Definition slice_from {A} (xs : list A) (i : Z) : list A :=
  let n := Z.of_nat (List.length xs) in
  let j := if i <? 0 then Z.max 0 (n + i) else Z.min i n in
  skipn (Z.to_nat j) xs.

(** Python [xs[-k:]]. *)
Definition last_k {A} (xs : list A) (k : Z) : list A := slice_from xs (- k).

(** Python [xs[a:b]] for non-negative [a] and [b]. *)
Definition slice {A} (xs : list A) (a b : nat) : list A :=
  firstn (b - a) (skipn a xs).

(** [list.remove(x)]: drop the first occurrence. *)
Fixpoint remove_first (x : string) (l : list string) : list string :=
  match l with
  | [] => []
  | y :: l' => if String.eqb x y then l' else y :: remove_first x l'
  end.

(** Redis glob matching for the patterns used by the code ([*] and literals). *)
Fixpoint glob (p s : list ascii) {struct p} : bool :=
  match p with
  | [] => match s with [] => true | _ => false end
  | c :: p' =>
      if Ascii.eqb c "*"%char then
        (fix star (s : list ascii) : bool :=
           glob p' s || match s with [] => false | _ :: s' => star s' end) s
      else match s with
           | [] => false
           | d :: s' => Ascii.eqb c d && glob p' s'
           end
  end.

Definition glob_match (pat key : string) : bool :=
  glob (list_ascii_of_string pat) (list_ascii_of_string key).

End Py.

(** ** SHA-256 (the [hashlib.sha256] used by [_hash_key]) *)
Module Sha256.

Definition mask32 (x : Z) : Z := Z.land x (2 ^ 32 - 1).
Definition add32 (x y : Z) : Z := mask32 (x + y).
Definition rotr (x : Z) (n : Z) : Z :=
  Z.lor (Z.shiftr x n) (mask32 (Z.shiftl x (32 - n))).
Definition bnot (x : Z) : Z := Z.lxor x (2 ^ 32 - 1).

Definition ch (e f g : Z) : Z := Z.lxor (Z.land e f) (Z.land (bnot e) g).
Definition maj (a b c : Z) : Z :=
  Z.lxor (Z.lxor (Z.land a b) (Z.land a c)) (Z.land b c).
Definition bsig0 (a : Z) : Z := Z.lxor (Z.lxor (rotr a 2) (rotr a 13)) (rotr a 22).
Definition bsig1 (e : Z) : Z := Z.lxor (Z.lxor (rotr e 6) (rotr e 11)) (rotr e 25).
Definition ssig0 (w : Z) : Z := Z.lxor (Z.lxor (rotr w 7) (rotr w 18)) (Z.shiftr w 3).
Definition ssig1 (w : Z) : Z := Z.lxor (Z.lxor (rotr w 17) (rotr w 19)) (Z.shiftr w 10).

(** The 64 round constants, in decimal. *)
Definition K : list Z :=
  [ 1116352408; 1899447441; 3049323471; 3921009573; 961987163; 1508970993;
    2453635748; 2870763221; 3624381080; 310598401; 607225278; 1426881987;
    1925078388; 2162078206; 2614888103; 3248222580; 3835390401; 4022224774;
    264347078; 604807628; 770255983; 1249150122; 1555081692; 1996064986;
    2554220882; 2821834349; 2952996808; 3210313671; 3336571891; 3584528711;
    113926993; 338241895; 666307205; 773529912; 1294757372; 1396182291;
    1695183700; 1986661051; 2177026350; 2456956037; 2730485921; 2820302411;
    3259730800; 3345764771; 3516065817; 3600352804; 4094571909; 275423344;
    430227734; 506948616; 659060556; 883997877; 958139571; 1322822218;
    1537002063; 1747873779; 1955562222; 2024104815; 2227730452; 2361852424;
    2428436474; 2756734187; 3204031479; 3329325298 ].

Record state := mkState { ha : Z; hb : Z; hc : Z; hd : Z; he : Z; hf : Z; hg : Z; hh : Z }.

Definition H0 : state :=
  mkState 1779033703 3144134277 1013904242 2773480762
          1359893119 2600822924 528734635 1541459225.

(** Big-endian 64-bit message length. *)
Definition be64 (n : Z) : list Z :=
  map (fun i => Z.land (Z.shiftr n (8 * (7 - i))) 255) [0;1;2;3;4;5;6;7].

Definition pad (msg : list Z) : list Z :=
  let len := Z.of_nat (List.length msg) in
  msg ++ [128] ++ repeat 0 (Z.to_nat ((55 - len) mod 64)) ++ be64 (8 * len).

Fixpoint words (bs : list Z) : list Z :=
  match bs with
  | b0 :: b1 :: b2 :: b3 :: rest =>
      (b0 * 2 ^ 24 + b1 * 2 ^ 16 + b2 * 2 ^ 8 + b3) :: words rest
  | _ => []
  end.

(** Message schedule: extend 16 words to 64. *)
Fixpoint extend (n : nat) (ws : list Z) : list Z :=
  match n with
  | O => ws
  | S n' =>
      let i := List.length ws in
      let w := add32 (add32 (ssig1 (nth (i - 2) ws 0)) (nth (i - 7) ws 0))
                     (add32 (ssig0 (nth (i - 15) ws 0)) (nth (i - 16) ws 0)) in
      extend n' (ws ++ [w])
  end.

Definition round (s : state) (kw : Z * Z) : state :=
  let (k, w) := kw in
  let t1 := add32 (add32 (add32 (hh s) (bsig1 (he s))) (add32 (ch (he s) (hf s) (hg s)) k)) w in
  let t2 := add32 (bsig0 (ha s)) (maj (ha s) (hb s) (hc s)) in
  mkState (add32 t1 t2) (ha s) (hb s) (hc s) (add32 (hd s) t1) (he s) (hf s) (hg s).

Definition compress (s : state) (block : list Z) : state :=
  let ws := extend 48 (words block) in
  let s' := fold_left round (combine K ws) s in
  mkState (add32 (ha s) (ha s')) (add32 (hb s) (hb s')) (add32 (hc s) (hc s'))
          (add32 (hd s) (hd s')) (add32 (he s) (he s')) (add32 (hf s) (hf s'))
          (add32 (hg s) (hg s')) (add32 (hh s) (hh s')).

Fixpoint blocks (n : nat) (bs : list Z) : list (list Z) :=
  match n with
  | O => []
  | S n' => firstn 64 bs :: blocks n' (skipn 64 bs)
  end.

Definition digest (msg : list Z) : state :=
  let p := pad msg in
  fold_left compress (blocks (List.length p / 64) p) H0.

Definition hex_digit (d : Z) : ascii :=
  match String.get (Z.to_nat d) "0123456789abcdef"%string with Some c => c | None => "0"%char end.

(** Eight lowercase hex digits of a 32-bit word. *)
Definition word_hex (w : Z) : string :=
  string_of_list_ascii
    (map (fun i => hex_digit (Z.land (Z.shiftr w (4 * (7 - i))) 15)) [0;1;2;3;4;5;6;7]).

Definition hexdigest_of_state (s : state) : string :=
  (word_hex (ha s) ++ word_hex (hb s) ++ word_hex (hc s) ++ word_hex (hd s) ++
   word_hex (he s) ++ word_hex (hf s) ++ word_hex (hg s) ++ word_hex (hh s))%string.

(** [hashlib.sha256(s.encode()).hexdigest()] for an ASCII [s]. *)
Definition hexdigest (s : string) : string :=
  hexdigest_of_state (digest (map (fun c => Z.of_N (N_of_ascii c)) (list_ascii_of_string s))).

End Sha256.

(** ** Data model *)

(** [ConversationModel]: [metadata['inherit_context']] is kept as [cinherit]. *)
Record conv := mkConv {
  cid : string; cuser : string; ctitle : string;
  cparent : option string; cinherit : bool }.

(** [MessageModel]; [timestamp] is an optional ISO string. *)
Record msg := mkMsg {
  mid : string; mconv : string; mrole : string; mcontent : string;
  mts : option string }.

(** Values held by the Distributed Cache (Redis), after JSON decoding. *)
Inductive rvalue :=
| RIds (l : list string)                  (* json.dumps(list of ids) *)
| RBack (main user : string) (created_at : Z)  (* hierarchy:sub back-pointer *)
| RMeta (id user title : string) (cached_at : Z)  (* conversation metadata *)
| RList (l : list string)                 (* a Redis list *)
| RStr (s : string).

(** The three tiers and the clock.  Redis entries carry an optional absolute
    expiry time; the Durable Store (Weaviate) is an external collaborator that
    answers [None], [[]] or [false] while unreachable. *)
Record world := mkWorld {
  now : Z;
  wv_up : bool;
  wv_convs : list conv;
  wv_msgs : list msg;
  rd_up : bool;
  rd : list (string * (rvalue * option Z));
  lc : list (string * conv) }.

Definition set_rd (w : world) r :=
  mkWorld (now w) (wv_up w) (wv_convs w) (wv_msgs w) (rd_up w) r (lc w).
Definition set_lc (w : world) l :=
  mkWorld (now w) (wv_up w) (wv_convs w) (wv_msgs w) (rd_up w) (rd w) l.
Definition set_wv (w : world) cs ms :=
  mkWorld (now w) (wv_up w) cs ms (rd_up w) (rd w) (lc w).

(** ** A state and exception monad: Python exceptions are [Raise]; [OutOfFuel]
    marks a loop or a recursion cut by the fuel of the model. *)
Inductive outcome (A : Type) := Ok (a : A) | Raise | OutOfFuel.
Arguments Ok {A} a.
Arguments Raise {A}.
Arguments OutOfFuel {A}.

Definition M (A : Type) := world -> outcome A * world.

Definition ret {A} (a : A) : M A := fun w => (Ok a, w).
Definition raise {A} : M A := fun w => (Raise, w).
Definition nofuel {A} : M A := fun w => (OutOfFuel, w).
Definition bind {A B} (m : M A) (k : A -> M B) : M B :=
  fun w => match m w with
           | (Ok a, w') => k a w'
           | (Raise, w') => (Raise, w')
           | (OutOfFuel, w') => (OutOfFuel, w')
           end.
(** [try: m except Exception: h] *)
Definition try_ {A} (m : M A) (h : M A) : M A :=
  fun w => match m w with (Raise, w') => h w' | r => r end.
Definition get_w : M world := fun w => (Ok w, w).
Definition put_w (w : world) : M unit := fun _ => (Ok tt, w).

Notation "x <- m ;; k" := (bind m (fun x => k)) (at level 61, m at next level, right associativity).
Notation "m ;;; k" := (bind m (fun _ => k)) (at level 61, right associativity).

Fixpoint for_ {A} (l : list A) (f : A -> M unit) : M unit :=
  match l with [] => ret tt | x :: l' => f x ;;; for_ l' f end.

(** [for attempt in range(n): try: if op(): success; break  except: pass] *)
Fixpoint retry (n : nat) (op : M bool) : M bool :=
  match n with
  | O => ret false
  | S n' => ok <- try_ op (ret false) ;; if ok then ret true else retry n' op
  end.

(** ** Distributed Cache primitives (redis-py calls; they raise while Redis is
    unreachable) *)
Module Redis.

Definition live (w : world) (e : rvalue * option Z) : bool :=
  match snd e with Some t => now w <? t | None => true end.

Fixpoint lookup (k : string) (r : list (string * (rvalue * option Z))) :=
  match r with
  | [] => None
  | (k', e) :: r' => if String.eqb k k' then Some e else lookup k r'
  end.

Definition remove_key (k : string) (r : list (string * (rvalue * option Z))) :=
  filter (fun p => negb (String.eqb k (fst p))) r.

(** [SET]-like write: an existing key keeps its slot, a new key is appended. *)
Fixpoint put_key (k : string) (e : rvalue * option Z) r :=
  match r with
  | [] => [(k, e)]
  | (k', e') :: r' => if String.eqb k k' then (k, e) :: r' else (k', e') :: put_key k e r'
  end.

Definition guard : M unit :=
  fun w => if rd_up w then (Ok tt, w) else (Raise, w).

Definition get_entry (k : string) : M (option (rvalue * option Z)) :=
  guard ;;; w <- get_w ;;
  ret (match lookup k (rd w) with
       | Some e => if live w e then Some e else None
       | None => None end).

(** [GET k] on the shared client, which [RedisServiceOptimized.__init__]
    gives the response callback [_deserialize_data]: the caller never sees
    the stored text.  For the non-empty JSON text the code writes, the
    callback either raises [TypeError] (an even-length reply: its hex test
    runs [c in '0123456789abcdef'] with an int [c]) or returns [json.loads]
    of it (an odd-length reply).  The length depends on fields the model does
    not keep (timestamps, titles), so [get] answers the decoded value; every
    caller below decodes that value a second time inside the same [try] and
    raises there, which is where the even-length case has already raised. *)
Definition get (k : string) : M (option rvalue) :=
  e <- get_entry k ;; ret (option_map fst e).

Definition setex (k : string) (ttl : Z) (v : rvalue) : M unit :=
  guard ;;; w <- get_w ;; put_w (set_rd w (put_key k (v, Some (now w + ttl)) (rd w))).

Definition delete_one (k : string) : M Z :=
  e <- get_entry k ;; w <- get_w ;;
  put_w (set_rd w (remove_key k (rd w))) ;;;
  ret (match e with Some _ => 1 | None => 0 end).

(** [DEL k1 k2 ...]: the number of keys removed. *)
Fixpoint delete (ks : list string) : M Z :=
  match ks with
  | [] => guard ;;; ret 0
  | k :: ks' => n <- delete_one k ;; m <- delete ks' ;; ret (n + m)
  end.

(** [KEYS pattern] over the live keys. *)
Definition keys (pat : string) : M (list string) :=
  guard ;;; w <- get_w ;;
  ret (map fst (filter (fun p => live w (snd p) && Py.glob_match pat (fst p)) (rd w))).

End Redis.

(** ** Durable Store adapter ([weaviate_service] and the model classes) *)
Module Weaviate.

(** [query_objects] caps its answers at [limit = 100]. *)
Definition query_limit : nat := 100.

Definition health_check : M bool := w <- get_w ;; ret (wv_up w).

(** [ConversationModel.get_by_id] *)
Definition get_conv (id : string) : M (option conv) :=
  w <- get_w ;;
  ret (if wv_up w then find (fun c => String.eqb (cid c) id) (wv_convs w) else None).

(** [MessageModel.get_by_conversation_id] *)
Definition msgs_of (id : string) : M (list msg) :=
  w <- get_w ;;
  ret (if wv_up w
       then firstn query_limit (filter (fun m => String.eqb (mconv m) id) (wv_msgs w))
       else []).

(** [ConversationModel.get_sub_conversations]: a [parent_id] equality query. *)
Definition subs_of (pid : string) : M (list conv) :=
  w <- get_w ;;
  ret (if wv_up w
       then firstn query_limit
              (filter (fun c => match cparent c with
                                | Some p => String.eqb p pid | None => false end)
                      (wv_convs w))
       else []).

(** [delete_object('Conversation', id)]: [False] when the object is missing or
    the store is unreachable. *)
Definition delete_conv (id : string) : M bool :=
  w <- get_w ;;
  if wv_up w && existsb (fun c => String.eqb (cid c) id) (wv_convs w)
  then put_w (set_wv w (filter (fun c => negb (String.eqb (cid c) id)) (wv_convs w))
                        (wv_msgs w)) ;;; ret true
  else ret false.

Definition delete_msg (id : string) : M bool :=
  w <- get_w ;;
  if wv_up w && existsb (fun m => String.eqb (mid m) id) (wv_msgs w)
  then put_w (set_wv w (wv_convs w)
                        (filter (fun m => negb (String.eqb (mid m) id)) (wv_msgs w))) ;;; ret true
  else ret false.

(** [MessageModel.delete] *)
Definition message_delete (m : msg) : M bool :=
  if String.eqb (mid m) "" then ret false else delete_msg (mid m).

(** [ConversationModel.delete]: messages (3 attempts, then a direct delete),
    then every direct sub-conversation recursively, then the record itself
    (5 attempts), re-checked once. *)
Fixpoint conversation_delete (fuel : nat) (c : conv) : M bool :=
  match fuel with
  | O => nofuel
  | S f =>
    if String.eqb (cid c) "" then ret false else
    try_ (
      ms <- msgs_of (cid c) ;;
      for_ ms (fun m =>
        ok <- retry 3 (message_delete m) ;;
        if ok then ret tt else try_ (delete_msg (mid m) ;;; ret tt) (ret tt)) ;;;
      try_ (subs <- subs_of (cid c) ;;
            for_ subs (fun s => try_ (conversation_delete f s ;;; ret tt)
                                     (try_ (delete_conv (cid s) ;;; ret tt) (ret tt))))
           (ret tt) ;;;
      deleted <- retry 5 (delete_conv (cid c)) ;;
      if deleted then
        try_ (v <- get_conv (cid c) ;;
              match v with
              | Some _ => try_ (delete_conv (cid c)) (ret false)
              | None => ret true
              end)
             (ret true)
      else ret false)
    (try_ (delete_conv (cid c)) (ret false))
  end.

End Weaviate.

(** ** [RedisServiceOptimized] *)
Module RedisService.

Definition conversation_ttl : Z := 60 * 60 * 24 * 7.
Definition metadata_ttl : Z := 60 * 60 * 24 * 30.
Definition max_messages_per_conversation : Z := 500.
Definition pipeline_batch_size : nat := 100.

(** [_hash_key] *)
Definition hash_key (key : string) : string :=
  ("pgpt:" ++ substring 0 12 (Sha256.hexdigest key))%string.

Definition get_conversation_key (user_id conversation_id : string) : string :=
  hash_key ("conv:" ++ user_id ++ ":" ++ conversation_id)%string.

Definition get_metadata_key (conversation_id : string) : string :=
  hash_key ("meta:" ++ conversation_id)%string.

(** [@_with_error_handling]: any exception becomes [None]. *)
Definition handled {A} (m : M (option A)) : M (option A) := try_ m (ret None).

Definition cache_conversation_metadata (id user title : string) : M (option bool) :=
  handled (w <- get_w ;;
           Redis.setex (get_metadata_key id) metadata_ttl (RMeta id user title (now w)) ;;;
           ret (Some true)).

(** [get_cached_conversation_metadata]: [metadata_data] is the dict the GET
    callback has already decoded (a non-empty dict, so truthy), and
    [self._deserialize_data(metadata_data)] raises on it: [json.loads] of a
    dict (odd number of keys) or [data[:10]] on a dict (even number) — neither
    [TypeError] nor [KeyError] is among the [(JSONDecodeError, ValueError)] it
    catches.  The decorator turns that into [None], before the freshness
    check and its [delete]. *)
Definition get_cached_conversation_metadata (id : string)
  : M (option (string * string * string)) :=
  handled (let key := get_metadata_key id in
           metadata_data <- Redis.get key ;;
           match metadata_data with
           | None => ret None
           | Some _ => raise
           end).

End RedisService.

(** ** [ChatServiceOptimized]: the local cache, conversation reads and the
    Hierarchy Index *)
Module Chat.

(** Python dict assignment: an existing key keeps its position. *)
Fixpoint dict_set {V} (k : string) (v : V) (l : list (string * V)) : list (string * V) :=
  match l with
  | [] => [(k, v)]
  | (k', v') :: l' => if String.eqb k k' then (k, v) :: l' else (k', v') :: dict_set k v l'
  end.

Fixpoint dict_get {V} (k : string) (l : list (string * V)) : option V :=
  match l with
  | [] => None
  | (k', v) :: l' => if String.eqb k k' then Some v else dict_get k l'
  end.

(** [_get_cached_conversation] *)
Definition get_cached_conversation (id : string) : M (option conv) :=
  w <- get_w ;; ret (dict_get id (lc w)).

(** [_cache_conversation]: insert, then drop the oldest key above 100 entries. *)
Definition cache_conversation (c : conv) : M unit :=
  w <- get_w ;;
  let l := dict_set (cid c) c (lc w) in
  put_w (set_lc w (if (100 <? List.length l)%nat then tl l else l)).

(** The local cache is emptied key by key ([pop] of every key) or by [clear()]. *)
Definition clear_local_cache : M unit := w <- get_w ;; put_w (set_lc w []).

(** [get_conversation]: local cache, then Redis metadata (which would rebuild a
    conversation with no [parent_id] and empty [metadata]; the metadata read
    above never answers a dict, so this branch is dead), then Weaviate. *)
Definition get_conversation (id : string) : M (option conv) :=
  try_ (
    c <- get_cached_conversation id ;;
    match c with
    | Some c => ret (Some c)
    | None =>
      md <- RedisService.get_cached_conversation_metadata id ;;
      match md with
      | Some (i, u, t) =>
          let c := mkConv i u t None false in
          cache_conversation c ;;; ret (Some c)
      | None =>
          c <- Weaviate.get_conv id ;;
          match c with
          | Some c =>
              RedisService.cache_conversation_metadata (cid c) (cuser c) (ctitle c) ;;;
              cache_conversation c ;;; ret (Some c)
          | None => ret None
          end
      end
    end)
  (ret None).

(** Python truthiness of an optional [str]. *)
Definition truthy (o : option string) : option string :=
  match o with Some p => if String.eqb p "" then None else Some p | None => None end.

(** The [while current_conv.parent_id:] loop of [_get_main_chat_id]. *)
Fixpoint walk_parents (fuel : nat) (cur : conv) : M string :=
  match fuel with
  | O => nofuel
  | S f =>
      match truthy (cparent cur) with
      | None => ret (cid cur)
      | Some p =>
          pc <- get_conversation p ;;
          match pc with
          | None => ret (cid cur)
          | Some pc => walk_parents f pc
          end
      end
  end.

(** [_get_main_chat_id] *)
Definition get_main_chat_id (fuel : nat) (id : string) : M string :=
  try_ (c <- get_conversation id ;;
        match c with None => ret id | Some c => walk_parents fuel c end)
       (ret id).

Definition main_key (main : string) : string := ("hierarchy:main:" ++ main)%string.
Definition sub_key (sub : string) : string := ("hierarchy:sub:" ++ sub)%string.

(** [if sub_chats_data: json.loads(sub_chats_data)] on the GET reply.  The
    main-chat key only ever holds [json.dumps] of a non-empty id list, which
    the GET callback has already decoded to a Python list (truthy), and
    [json.loads] of a list raises [TypeError]: a live key always raises here. *)
Definition decode_ids (d : option rvalue) : M (option (list string)) :=
  match d with
  | None => ret None
  | Some _ => raise
  end.


(** [_get_all_sub_chats] *)
Definition get_all_sub_chats (main : string) : M (list string) :=
  try_ (
    d <- Redis.get (main_key main) ;;
    l <- decode_ids d ;;
    match l with
    | Some l => ret l
    | None =>
        subs <- Weaviate.subs_of main ;;
        let ids := map cid subs in
        (match ids with
         | [] => ret tt
         | _ => Redis.setex (main_key main) RedisService.conversation_ttl (RIds ids)
         end) ;;;
        ret ids
    end)
  (ret []).


End Chat.

(** ** The deletion coordinator: [delete_conversation] *)
Module Delete.

(** [user_id and user_id in key] *)
Definition user_in (u : option string) (k : string) : bool :=
  match Chat.truthy u with Some u => Py.str_in u k | None => false end.

(** [for pattern in patterns: try: keys(pattern) filtered by [rel], deleted
    when non-empty; except: pass] *)
Definition pattern_sweep (pats : list string) (rel : string -> bool) : M unit :=
  for_ pats (fun p =>
    try_ (ks <- Redis.keys p ;;
          match filter rel ks with
          | [] => ret tt
          | r => Redis.delete r ;;; ret tt
          end)
         (ret tt)).

(** Python's [range(0, len(l), n)] batches. *)
Fixpoint batches (fuel : nat) (n : nat) (l : list string) : list (list string) :=
  match fuel with
  | O => []
  | S f => match l with [] => [] | _ => firstn n l :: batches f n (skipn n l) end
  end.

Definition star (s : string) : string := ("*" ++ s ++ "*")%string.

(** Redis-only cleanup taken when the Weaviate health check fails. *)
Definition degraded (id : string) (user : option string) : M bool :=
  let rel k := Py.str_in id k || user_in user k in
  try_ (
    all <- Redis.keys "*" ;;
    (match filter rel all with [] => ret tt | r => Redis.delete r ;;; ret tt end) ;;;
    pattern_sweep [star id; ("*conv*" ++ id ++ "*")%string; ("*" ++ id ++ "*conv*")%string;
                   "*conversation*"; "*chat*"; "*message*"; "*hierarchy*"; "*context*"]%string rel ;;;
    Chat.clear_local_cache ;;;
    ret true)
  (ret false).

(** The [except] branch of [delete_conversation]: emergency cleanup. *)
Definition emergency (id : string) : M bool :=
  try_ (pattern_sweep [star id; "*conversation*"; "*chat*"; "*message*"]%string (Py.str_in id) ;;;
        Chat.clear_local_cache ;;;
        ret true)
       (ret true).

(** STEP 1: every message, 3 attempts then a direct delete. *)
Definition delete_messages (id : string) : M unit :=
  try_ (ms <- Weaviate.msgs_of id ;;
        for_ ms (fun m =>
          try_ (ok <- retry 3 (Weaviate.message_delete m) ;;
                if ok then ret tt else try_ (Weaviate.delete_msg (mid m) ;;; ret tt) (ret tt))
               (ret tt)))
       (ret tt).

(** STEP 2: every key containing the id, the main chat id or the user id. *)
Definition purge_related (rel : string -> bool) : M unit :=
  try_ (all <- Redis.keys "*" ;;
        let r := filter rel all in
        for_ (batches (List.length r) 100 r) (fun b =>
          try_ (Redis.delete b ;;; ret tt)
               (for_ b (fun k => try_ (Redis.delete [k] ;;; ret tt) (ret tt)))))
       (ret tt).

(** STEP 3 patterns. *)
Definition main_patterns (id main : string) (user : option string) : list string :=
  [star id; star main] ++
  match Chat.truthy user with
  | Some u => [("*" ++ u ++ "*conv*")%string; ("*conv*" ++ u ++ "*")%string;
               ("*" ++ u ++ "*chat*")%string; ("*chat*" ++ u ++ "*")%string]
  | None => []
  end ++
  ["hierarchy:*"; "context:*"; "ai_resp:*"; "messages_cache:*";
   "conversation_metadata:*"; "user_conversations:*"; "pgpt:*"]%string.

(** STEP 8: verification, with one more delete of what is still there. *)
Definition verify (id : string) (wv_ok : bool) : M unit :=
  try_ (Chat.get_conversation id ;;;
        (if wv_ok then
           try_ (d <- Weaviate.get_conv id ;;
                 match d with
                 | Some _ => try_ (Weaviate.delete_conv id ;;; ret tt) (ret tt)
                 | None => ret tt
                 end) (ret tt)
         else ret tt) ;;;
        (if wv_ok then
           try_ (rm <- Weaviate.msgs_of id ;;
                 for_ rm (fun m => try_ (Weaviate.delete_msg (mid m) ;;; ret tt) (ret tt)))
                (ret tt)
         else ret tt))
       (ret tt).

(** STEP 9: user-level cache keys. *)
Definition purge_user (user : option string) : M unit :=
  match Chat.truthy user with
  | Some u =>
      try_ (pattern_sweep [star u; "user_conversations:*"; "user_*"; "recent_*"; "cached_*"]%string
                          (Py.str_in u))
           (ret tt)
  | None => ret tt
  end.

(** The path taken when the Weaviate health check passes; [rec] is the
    recursive call used for the sub-chats (STEP 4). *)
Definition main_path (rec : string -> M bool) (f : nat) (id : string)
    (conv : option conv) (user : option string) (wv_ok : bool) : M bool :=
  main <- Chat.get_main_chat_id f id ;;
  subs <- (if String.eqb id main then Chat.get_all_sub_chats id else ret []) ;;
  delete_messages id ;;;
  let rel k := Py.str_in id k || Py.str_in main k || user_in user k in
  purge_related rel ;;;
  pattern_sweep (main_patterns id main user) rel ;;;
  (* STEP 4: sub-chats, recursively *)
  for_ subs (fun s =>
    try_ (ok <- rec s ;;
          if ok then ret tt else try_ (Weaviate.delete_conv s ;;; ret tt) (ret tt))
         (ret tt)) ;;;
  (* STEP 5 *)
  Chat.clear_local_cache ;;;
  (* STEP 6 *)
  deleted <- (match conv with
              | Some c => retry 5 (Weaviate.conversation_delete f c)
              | None => ret true
              end) ;;
  (* STEP 7 *)
  (if deleted then ret tt else try_ (Weaviate.delete_conv id ;;; ret tt) (ret tt)) ;;;
  verify id wv_ok ;;;
  purge_user user ;;;
  ret true.

(** The [try] block of [delete_conversation]. *)
Definition body (rec : string -> M bool) (f : nat) (id : string) : M bool :=
  conv <- Chat.get_conversation id ;;
  let user := option_map cuser conv in
  wv_ok <- try_ Weaviate.health_check (ret false) ;;
  if negb wv_ok then degraded id user else main_path rec f id conv user wv_ok.

Fixpoint delete_conversation (fuel : nat) (id : string) : M bool :=
  match fuel with
  | O => nofuel
  | S f => try_ (body (delete_conversation f) f id) (emergency id)
  end.

End Delete.

(** ** The context assembler: [get_conversation_context] *)
Module Context.

(** The dict built for each candidate message: role, content, timestamp (the
    bookkeeping flags are dropped by the final conversion). *)
Record cand := mkCand { crole : string; ccontent : string; cts : option string }.

Definition to_cand (m : msg) : cand := mkCand (mrole m) (mcontent m) (mts m).

(** [x.get('timestamp', '')] compared with Python's [<] on [str]. *)
Definition key_le (a b : option string) : bool :=
  match a, b with Some x, Some y => String.leb x y | _, _ => true end.

(** [list.sort] is stable: insertion before the first element that is not
    smaller. *)
Fixpoint insert (x : cand) (l : list cand) : list cand :=
  match l with
  | [] => [x]
  | y :: l' => if key_le (cts x) (cts y) then x :: y :: l' else y :: insert x l'
  end.

Fixpoint isort (l : list cand) : list cand :=
  match l with [] => [] | x :: l' => insert x (isort l') end.

(** [messages.sort(key=lambda x: x.get('timestamp', ''))]: comparing a [None]
    timestamp raises [TypeError] as soon as two elements are compared. *)
Definition sort_ts (l : list cand) : option (list cand) :=
  if (2 <=? List.length l)%nat && existsb (fun c => match cts c with None => true | _ => false end) l
  then None else Some (isort l).

Definition strip (c : cand) : string * string := (crole c, ccontent c).

(** Sort, strip, then truncate to [limit] (or [2 * limit] with inheritance). *)
Definition finish (inherit : bool) (limit : Z) (msgs : list cand)
  : option (list (string * string)) :=
  match sort_ts msgs with
  | None => None
  | Some sorted =>
      let ctx := map strip sorted in
      let n := Z.of_nat (List.length ctx) in
      Some (if inherit then
              let max_context := Z.min n (limit * 2) in
              if max_context <? n then Py.last_k ctx max_context else ctx
            else if limit <? n then Py.last_k ctx limit else ctx)
  end.

(** Up to [k] recent messages of every listed conversation but [self]. *)
Fixpoint from_others (self : string) (k : Z) (cs : list conv) : M (list cand) :=
  match cs with
  | [] => ret []
  | c :: cs' =>
      here <- (if String.eqb (cid c) self then ret []
               else ms <- Weaviate.msgs_of (cid c) ;; ret (map to_cand (Py.last_k ms k))) ;;
      rest <- from_others self k cs' ;;
      ret (here ++ rest)
  end.

(** Candidate gathering: [None] when the conversation is not found, otherwise
    the effective inheritance flag and the candidates in insertion order. *)
Definition gather (id : string) (limit : Z) (include_all : bool)
  : M (option (bool * list cand)) :=
  c <- Chat.get_conversation id ;;
  match c with
  | None => ret None
  | Some c =>
    let is_sub := Chat.truthy (cparent c) in
    let inherit := match is_sub with Some _ => cinherit c | None => false end in
    ancestors <- (match is_sub with
                  | Some p =>
                      if inherit then
                        pm <- Weaviate.msgs_of p ;;
                        let parent_ctx := map to_cand (Py.last_k pm limit) in
                        pc <- Chat.get_conversation p ;;
                        match match pc with Some pc => Chat.truthy (cparent pc) | None => None end with
                        | Some gp =>
                            gm <- Weaviate.msgs_of gp ;;
                            ret (map to_cand (Py.last_k gm (limit / 2)) ++ parent_ctx)
                        | None => ret parent_ctx
                        end
                      else ret []
                  | None => ret []
                  end) ;;
    let current_limit := if inherit then limit / 4 else limit in
    cm <- Weaviate.msgs_of id ;;
    let msgs := ancestors ++ map to_cand (Py.last_k cm current_limit) in
    others <- (if include_all then
                 match is_sub with
                 | None => subs <- Weaviate.subs_of id ;; from_others id 5 subs
                 | Some p =>
                     if inherit then sibs <- Weaviate.subs_of p ;; from_others id 3 sibs
                     else ret []
                 end
               else ret []) ;;
    ret (Some (inherit, msgs ++ others))
  end.

Definition get_conversation_context (id : string) (limit : Z) (include_all : bool)
  : M (list (string * string)) :=
  try_ (g <- gather id limit include_all ;;
        match g with
        | None => ret []
        | Some (inherit, msgs) =>
            match finish inherit limit msgs with
            | Some r => ret r
            | None => raise
            end
        end)
       (ret []).

End Context.

(** ** Message lists in the Distributed Cache: [store_message] and
    [store_messages_batch] *)
Module MsgCache.

Inductive rop :=
| Lpush (k v : string)
| Ltrim (k : string) (start stop : Z)
| Expire (k : string) (ttl : Z).

Definition op_name (o : rop) : string :=
  match o with Lpush _ _ => "lpush" | Ltrim _ _ _ => "ltrim" | Expire _ _ => "expire" end.

(** Redis [LTRIM start stop] on a list. *)
Definition ltrim_list (l : list string) (start stop : Z) : list string :=
  let n := Z.of_nat (List.length l) in
  let s := if start <? 0 then Z.max 0 (n + start) else start in
  let e := if stop <? 0 then n + stop else Z.min stop (n - 1) in
  if (e <? s) || (n <=? s) then []
  else firstn (Z.to_nat (e - s + 1)) (skipn (Z.to_nat s) l).

(** One command: [Some truthy-result], or [None] for a WRONGTYPE error. *)
Definition exec_op (w : world) (o : rop) : option bool * world :=
  let live k := match Redis.lookup k (rd w) with
                | Some e => if Redis.live w e then Some e else None
                | None => None end in
  match o with
  | Lpush k v =>
      match live k with
      | None => (Some true, set_rd w (Redis.put_key k (RList [v], None) (rd w)))
      | Some (RList l, e) => (Some true, set_rd w (Redis.put_key k (RList (v :: l), e) (rd w)))
      | Some _ => (None, w)
      end
  | Ltrim k a b =>
      match live k with
      | None => (Some true, w)
      | Some (RList l, e) =>
          match ltrim_list l a b with
          | [] => (Some true, set_rd w (Redis.remove_key k (rd w)))
          | l' => (Some true, set_rd w (Redis.put_key k (RList l', e) (rd w)))
          end
      | Some _ => (None, w)
      end
  | Expire k ttl =>
      match live k with
      | None => (Some false, w)
      | Some (v, _) => (Some true, set_rd w (Redis.put_key k (v, Some (now w + ttl)) (rd w)))
      end
  end.

Fixpoint exec_all (w : world) (ops : list rop) : list (option bool) * world :=
  match ops with
  | [] => ([], w)
  | o :: ops' => let (r, w1) := exec_op w o in
                 let (rs, w2) := exec_all w1 ops' in (r :: rs, w2)
  end.

Fixpoint first_names (seen : list string) (ops : list rop) : list string :=
  match ops with
  | [] => []
  | o :: ops' =>
      if existsb (String.eqb (op_name o)) seen then first_names seen ops'
      else op_name o :: first_names (op_name o :: seen) ops'
  end.

(** The [grouped_ops] dict of [pipeline_operation]: commands grouped by name,
    the names in first-occurrence order. *)
Definition group_ops (ops : list rop) : list rop :=
  flat_map (fun n => filter (fun o => String.eqb (op_name o) n) ops) (first_names [] ops).

(** [pipeline_operation]: the grouped commands are sent in one
    non-transactional pipeline; [execute()] raises the first command error
    after running all of them, and [@_with_error_handling] turns that (or an
    unreachable Redis) into [None]. *)
Definition pipeline_operation (ops : list rop) : M (option (list bool)) :=
  RedisService.handled (
    match ops with
    | [] => ret (Some [])
    | _ =>
      Redis.guard ;;; w <- get_w ;;
      let (rs, w') := exec_all w (group_ops ops) in
      put_w w' ;;;
      if forallb (fun r => match r with Some _ => true | None => false end) rs
      then ret (Some (map (fun r => match r with Some b => b | None => false end) rs))
      else raise
    end).

(** [store_message]: [data] is the serialized message. *)
Definition store_message (user_id conversation_id data : string) : M (option bool) :=
  RedisService.handled (
    let key := RedisService.get_conversation_key user_id conversation_id in
    result <- pipeline_operation
                [Lpush key data;
                 Ltrim key 0 (RedisService.max_messages_per_conversation - 1);
                 Expire key RedisService.conversation_ttl] ;;
    ret (Some (match result with
               | None | Some [] => false
               | Some l => forallb (fun b => b) l
               end))).

Fixpoint batches {A} (fuel : nat) (n : nat) (l : list A) : list (list A) :=
  match fuel with
  | O => []
  | S f => match l with [] => [] | _ => firstn n l :: batches f n (skipn n l) end
  end.

Fixpoint store_batches (key : string) (bs : list (list string)) : M (option bool) :=
  match bs with
  | [] => ret (Some true)
  | b :: bs' =>
      result <- pipeline_operation
                  (map (Lpush key) b ++
                   [Ltrim key 0 (RedisService.max_messages_per_conversation - 1);
                    Expire key RedisService.conversation_ttl]) ;;
      match result with
      | None | Some [] => ret (Some false)
      | Some _ => store_batches key bs'
      end
  end.

(** [store_messages_batch] *)
Definition store_messages_batch (user_id conversation_id : string) (datas : list string)
  : M (option bool) :=
  RedisService.handled (
    match datas with
    | [] => ret (Some true)
    | _ => store_batches (RedisService.get_conversation_key user_id conversation_id)
                         (batches (List.length datas) RedisService.pipeline_batch_size datas)
    end).

(** The live Redis list at [k] ([[]] when absent). *)
Definition cached_list (w : world) (k : string) : list string :=
  match Redis.lookup k (rd w) with
  | Some (RList l, e) => if Redis.live w (RList l, e) then l else []
  | _ => []
  end.

End MsgCache.

(** ** JSON values as [_deserialize_data] returns them ([JNull] is [None]) *)
Module Json.

#[warnings="-register-all"]
Inductive json :=
| JNull
| JBool (b : bool)
| JNum (n : Z)
| JStr (s : string)
| JList (l : list json)
| JObj (kv : list (string * json)).

(** Python truthiness of a decoded value. *)
Definition truthy (j : json) : bool :=
  match j with
  | JNull => false
  | JBool b => b
  | JNum n => negb (n =? 0)
  | JStr s => negb (String.eqb s "")
  | JList l => match l with [] => false | _ => true end
  | JObj kv => match kv with [] => false | _ => true end
  end.

End Json.

(** ** Reads of cached message lists, share tokens and key maintenance
    ([redis_service.py]), and the local-cache fill of
    [_cache_messages_async] ([chat_service.py]) *)
Module Reads.
Import Json.

Section Codec.

(** [_deserialize_data] on the text Redis returns: its [None] results, and
    the exceptions the callers below catch around it, are [JNull]. *)
Variable deserialize : string -> json.
(** The text Redis holds for a value the model keeps decoded (the JSON
    written by [json.dumps]). *)
Variable dumps : rvalue -> string.

(** [GET k] through the response callback [_deserialize_data] on the stored
    text [s] (below the 1 KB compression threshold): an empty reply is
    [None]; an even-length one raises [TypeError] in the hex test (the reply
    is [bytes], so [c] is an int); an odd-length one is [json.loads(s)], an
    invalid text falling back to [None] ([bytes.fromhex] of [bytes] raises in
    the bare [except]).  For odd-length text that is [deserialize s].  A list
    value is a WRONGTYPE error. *)
Definition get_reply (k : string) : M (option json) :=
  e <- Redis.get_entry k ;;
  match e with
  | None => ret None
  | Some (RList _, _) => raise
  | Some (v, _) =>
      let s := match v with RStr s => s | v => dumps v end in
      if String.eqb s "" then ret None
      else if Nat.even (String.length s) then raise
      else ret (Some (deserialize s))
  end.

(** [_deserialize_data] applied to a value the callback already decoded: a
    [str] is decoded as text; [len()] of a number or a bool, [json.loads] of
    a list or a dict, and [data[:10]] of a dict raise exceptions it does not
    catch. *)
Definition deserialize_again (j : json) : M json :=
  match j with
  | JStr s => ret (deserialize s)
  | _ => raise
  end.

(** [LRANGE k start stop]: the index range is the one [LTRIM] keeps; a
    non-list value is a WRONGTYPE error. *)
Definition lrange (k : string) (start stop : Z) : M (list string) :=
  e <- Redis.get_entry k ;;
  match e with
  | None => ret []
  | Some (RList l, _) => ret (MsgCache.ltrim_list l start stop)
  | Some _ => raise
  end.

(** One redis-py command sent on its own: a command error raises. *)
Definition command (o : MsgCache.rop) : M bool :=
  Redis.guard ;;; w <- get_w ;;
  let (r, w') := MsgCache.exec_op w o in
  match r with
  | Some b => put_w w' ;;; ret b
  | None => raise
  end.

(** The comprehension of [get_conversation_history]: internal fields are
    dropped, except [_state]. *)
Definition clean (kv : list (string * json)) : list (string * json) :=
  filter (fun p => negb (String.prefix "_" (fst p)) || String.eqb (fst p) "_state") kv.

(** [if message and isinstance(message, dict)]: a non-empty dict. *)
Definition as_message (j : json) : list (list (string * json)) :=
  match j with
  | JObj kv => match kv with [] => [] | _ => [clean kv] end
  | _ => []
  end.

Definition messages_of (raw : list string) : list (list (string * json)) :=
  flat_map (fun s => as_message (deserialize s)) raw.

(** [get_conversation_history] *)
Definition get_conversation_history (user_id conversation_id : string) (limit : Z)
  : M (option (list (list (string * json)))) :=
  RedisService.handled (
    let key := RedisService.get_conversation_key user_id conversation_id in
    let effective_limit := Z.min limit RedisService.max_messages_per_conversation in
    messages_raw <- lrange key 0 (effective_limit - 1) ;;
    match messages_raw with
    | [] => ret (Some [])
    | _ => ret (Some (rev (messages_of messages_raw)))
    end).

(** [ChatServiceOptimized.batch_size] *)
Definition batch_size : nat := 20.

(** [_cache_messages_async]: [datas] are the serialized messages, oldest
    first, each stored by its own [store_message]. *)
Definition cache_messages_async (user_id conversation_id : string) (datas : list string)
  : M unit :=
  try_ (for_ (MsgCache.batches (List.length datas) batch_size datas) (fun batch =>
          for_ batch (fun d => MsgCache.store_message user_id conversation_id d ;;; ret tt)))
       (ret tt).

Definition context_key (main_chat_id : string) : string :=
  ("main_chat_context:" ++ main_chat_id)%string.

(** [store_main_chat_context]: [data] is the serialized message. *)
Definition store_main_chat_context (main_chat_id data : string) : M bool :=
  try_ (let key := context_key main_chat_id in
        command (MsgCache.Lpush key data) ;;;
        command (MsgCache.Ltrim key 0 99) ;;;
        command (MsgCache.Expire key RedisService.conversation_ttl) ;;;
        ret true)
       (ret false).

(** [get_main_chat_context] *)
Definition get_main_chat_context (main_chat_id : string) (limit : Z) : M (list json) :=
  try_ (context_data <- lrange (context_key main_chat_id) 0 (limit - 1) ;;
        ret (rev (filter truthy (map deserialize context_data))))
       (ret []).

Definition share_key (token : string) : string := ("share_token:" ++ token)%string.
Definition share_ttl : Z := 60 * 60 * 24 * 7.

(** [store_share_token]: [data] is the serialized token data. *)
Definition store_share_token (token data : string) : M bool :=
  try_ (Redis.setex (share_key token) share_ttl (RStr data) ;;; ret true) (ret false).

(** [get_share_token_data] *)
Definition get_share_token_data (token : string) : M json :=
  try_ (token_data <- get_reply (share_key token) ;;
        match token_data with
        | Some j => if truthy j then deserialize_again j else ret JNull
        | None => ret JNull
        end)
       (ret JNull).

(** [delete_share_token] *)
Definition delete_share_token (token : string) : M bool :=
  try_ (n <- Redis.delete [share_key token] ;; ret (negb (n =? 0))) (ret false).

End Codec.

(** [TTL k]: [-2] for a missing key, [-1] for a key without expiry, else the
    seconds left. *)
Definition ttl_of (w : world) (k : string) : Z :=
  match Redis.lookup k (rd w) with
  | Some e =>
      if Redis.live w e then match snd e with None => -1 | Some t => t - now w end
      else -2
  | None => -2
  end.

(** [cleanup_expired_keys]: the [TTL] replies come from one pipeline, so
    they are read in the state the [KEYS] call saw. *)
Definition cleanup_expired_keys : M Z :=
  try_ (keys <- Redis.keys "pgpt:*" ;;
        match keys with
        | [] => ret 0
        | _ =>
            w <- get_w ;;
            let expired_keys := filter (fun k => ttl_of w k =? -1) keys in
            (match expired_keys with
             | [] => ret tt
             | _ => Redis.delete expired_keys ;;; ret tt
             end) ;;;
            ret (Z.of_nat (List.length expired_keys))
        end)
       (ret 0).

(** The live value at [k], if any, is a Redis list. *)
Definition list_or_absent (w : world) (k : string) : Prop :=
  forall v e, Redis.lookup k (rd w) = Some (v, e) -> Redis.live w (v, e) = true ->
  exists l, v = RList l.

End Reads.

(** ** Concrete stores used by the checks below *)
Module Scenarios.
Local Open Scope string_scope.


(** A main chat [M] with a sub-chat [S] (inheriting context) of user [U], as
    left by [create_conversation] and [create_sub_conversation] a moment ago:
    both records in Weaviate, their metadata and the hierarchy in Redis, both
    conversations in the local cache. *)
Definition convM := mkConv "M" "U" "main" None false.
Definition convS := mkConv "S" "U" "sub" (Some "M") true.

Definition tree : world :=
  mkWorld 1000 true [convM; convS]
    [mkMsg "m1" "M" "user" "hello" (Some "2024-05-01T10:00:00Z");
     mkMsg "m2" "S" "user" "hi" (Some "2024-05-01T10:00:05Z")]
    true
    [(RedisService.get_metadata_key "M",
        (RMeta "M" "U" "main" 900, Some (900 + RedisService.metadata_ttl)));
     (RedisService.get_metadata_key "S",
        (RMeta "S" "U" "sub" 950, Some (950 + RedisService.metadata_ttl)));
     (Chat.main_key "M", (RIds ["S"], Some (950 + RedisService.conversation_ttl)));
     (Chat.sub_key "S", (RBack "M" "U" 950, Some (950 + RedisService.conversation_ttl)))]
    [("M", convM); ("S", convS)].

(** The same store with both tiers unreachable. *)
Definition tree_down : world :=
  mkWorld (now tree) false (wv_convs tree) (wv_msgs tree) false (rd tree) (lc tree).

(** Corrupted parent data: [A] and [B] are each other's parent. *)
Definition convA := mkConv "A" "U" "a" (Some "B") false.
Definition convB := mkConv "B" "U" "b" (Some "A") false.
Definition cyclic : world := mkWorld 0 true [convA; convB] [] true [] [].

(** [cyclic] after reading [A], then [B]: both now in the local cache. *)
Definition cyc1 : world := snd (Chat.get_conversation "A" cyclic).
Definition cyc2 : world := snd (Chat.get_conversation "B" cyc1).

(** A chain of [n + 1] conversations: [xs k] has parent [xs (k - 1)]. *)
Fixpoint xs (k : nat) : string :=
  match k with O => "x" | S k' => String "x"%char (xs k') end.

Fixpoint chain (n : nat) : list conv :=
  match n with
  | O => [mkConv (xs 0) "U" "root" None false]
  | S n' => mkConv (xs n) "U" "deep" (Some (xs n')) false :: chain n'
  end.

Definition deep : world := mkWorld 0 true (chain 70) [] true [] [].

(** [n] direct sub-chats [xs 1] .. [xs n] of the main chat [M] of user [U]. *)
Definition fan (n : nat) : list conv :=
  map (fun k => mkConv (xs k) "U" "sub" (Some "M") false) (seq 1 n).

(** A main chat [M] with 101 sub-chats in Weaviate.  Registering them left
    the Hierarchy Index at [[xs 1]]: the first [_store_chat_hierarchy_in_redis]
    finds no key and writes the list, every later one meets the live key and
    returns [False]. *)
Definition wide : world :=
  mkWorld 1000 true (convM :: fan 101) [] true
    [(Chat.main_key "M", (RIds [xs 1], Some (950 + RedisService.conversation_ttl)))] [].

(** Empty tiers at time 0, and the clock moved forward. *)
Definition empty_at (t : Z) : world := mkWorld t true [] [] true [] [].
Definition tick (w : world) (dt : Z) : world :=
  mkWorld (now w + dt) (wv_up w) (wv_convs w) (wv_msgs w) (rd_up w) (rd w) (lc w).


(** The message list of conversation [M] of user [U] already at the cap of
    500 entries (no expiry set). *)
Definition full_cache : world :=
  mkWorld 0 true [] [] true
    [(RedisService.get_conversation_key "U" "M", (RList (repeat "old" 500), None))] [].

(** A main chat [M] whose own message [a] was written at the same second as
    the sub-chat's reply [c], after the sub-chat's [b]; Redis is down. *)
Definition ties : world :=
  mkWorld 1000 true [convM; mkConv "S" "U" "sub" (Some "M") false]
    [mkMsg "m1" "M" "user" "a" (Some "2024-05-01T10:00:05Z");
     mkMsg "m2" "S" "user" "b" (Some "2024-05-01T10:00:00Z");
     mkMsg "m3" "S" "assistant" "c" (Some "2024-05-01T10:00:05Z")]
    false [] [].

End Scenarios.
(** ** Frame facts about the monadic model *)
Module Facts.

(** The clock and the reachability flags are never changed by the code. *)
Definition flags (w : world) : Z * bool * bool := (now w, wv_up w, rd_up w).

Definition Stable {A} (m : M A) : Prop := forall w, flags (snd (m w)) = flags w.
Definition NeverRaise {A} (m : M A) : Prop := forall w, fst (m w) <> Raise.
Definition EndsTrue (m : M bool) : Prop := forall w w' b, m w = (Ok b, w') -> b = true.
(** Returns normally whenever Redis is reachable. *)
Definition Safe {A} (m : M A) : Prop :=
  forall w, rd_up w = true -> exists a w', m w = (Ok a, w').
(** The hierarchy invariant: every id list stored in Redis is non-empty and
    has no repeated id. *)
Definition edges_ok_rd (r : list (string * (rvalue * option Z))) : Prop :=
  forall k l e, Redis.lookup k r = Some (RIds l, e) -> l <> [] /\ NoDup l.
(** What [GET k] answers. *)
Definition live_value (k : string) (w : world) : option rvalue :=
  match Redis.lookup k (rd w) with
  | Some e => if Redis.live w e then Some (fst e) else None
  | None => None
  end.
(** A pipeline reply that is not a command error. *)
Definition is_some (r : option bool) : bool := match r with Some _ => true | None => false end.
(** Two candidate timestamps are the same ([None] only equals [None]). *)
Definition ts_eqb (a b : option string) : bool :=
  match a, b with
  | Some x, Some y => String.eqb x y
  | None, None => true
  | _, _ => false
  end.
(** The order [list.sort] sorts candidates by. *)
Definition ts_le (a b : Context.cand) : Prop :=
  Context.key_le (Context.cts a) (Context.cts b) = true.
(** What [_cache_conversation] does to the local cache. *)
Definition lc_insert (c : conv) (l : list (string * conv)) : list (string * conv) :=
  let l' := Chat.dict_set (cid c) c l in
  if (100 <? List.length l')%nat then tl l' else l'.
(** Leaves the local cache as it is. *)
Definition KeepLc {A} (m : M A) : Prop := forall w, lc (snd (m w)) = lc w.
(** The Weaviate record [ConversationModel.get_by_id] finds for [id]. *)
Definition find_conv (id : string) (cs : list conv) : option conv :=
  find (fun c => String.eqb (cid c) id) cs.
(** Every local-cache entry is the Weaviate record stored under its key. *)
Definition cache_agrees (w : world) : Prop :=
  Forall (fun p => find_conv (fst p) (wv_convs w) = Some (snd p)) (lc w).
(** [ids] lists a parent chain of the store [cs], from a conversation up to
    the first ancestor the walk stops at: each id is found, the parent of
    each found record is the next id, and the last record has no parent or
    a parent that is not found. *)
Fixpoint id_chain (cs : list conv) (ids : list string) : bool :=
  match ids with
  | [] => false
  | i :: rest =>
      match find_conv i cs with
      | None => false
      | Some c =>
          match Chat.truthy (cparent c), rest with
          | None, [] => true
          | Some p, [] => match find_conv p cs with None => true | Some _ => false end
          | Some p, j :: _ => String.eqb p j && id_chain cs rest
          | None, _ :: _ => false
          end
      end
  end.
(** Every id of [ids] is found in [cs], and its record has a parent that is
    again in [ids]: the parent links never leave [ids] (a cycle). *)
Definition parents_closed (cs : list conv) (ids : list string) : bool :=
  forallb (fun i => match find_conv i cs with
                    | Some c => match Chat.truthy (cparent c) with
                                | Some p => existsb (String.eqb p) ids
                                | None => false
                                end
                    | None => false
                    end) ids.

Lemma stable_ret {A} (a : A) : Stable (ret a).
Proof. intro w; reflexivity. Qed.
Lemma stable_raise {A} : Stable (@raise A).
Proof. intro w; reflexivity. Qed.
Lemma stable_nofuel {A} : Stable (@nofuel A).
Proof. intro w; reflexivity. Qed.
Lemma stable_get_w : Stable get_w.
Proof. intro w; reflexivity. Qed.

Lemma stable_bind {A B} (m : M A) (k : A -> M B) :
  Stable m -> (forall a, Stable (k a)) -> Stable (bind m k).
Proof.
  intros Hm Hk w. unfold bind. specialize (Hm w).
  destruct (m w) as [[a| |] w1]; simpl in *; try exact Hm.
  rewrite Hk. exact Hm.
Qed.

Lemma stable_try {A} (m h : M A) : Stable m -> Stable h -> Stable (try_ m h).
Proof.
  intros Hm Hh w. unfold try_. specialize (Hm w).
  destruct (m w) as [[a| |] w1]; simpl in *; try exact Hm.
  rewrite Hh. exact Hm.
Qed.

Lemma stable_for {A} (l : list A) (f : A -> M unit) :
  (forall x, Stable (f x)) -> Stable (for_ l f).
Proof.
  intros Hf. induction l as [|x l IH]; simpl.
  - apply stable_ret.
  - apply stable_bind; [apply Hf | intros _; exact IH].
Qed.

Lemma stable_retry (n : nat) (op : M bool) : Stable op -> Stable (retry n op).
Proof.
  intros Hop. induction n as [|n IH]; simpl.
  - apply stable_ret.
  - apply stable_bind; [apply stable_try; [exact Hop | apply stable_ret]|].
    intros [|]; [apply stable_ret | exact IH].
Qed.

Create HintDb stab.

Ltac stab :=
  repeat (cbv beta zeta;
    match goal with
    | |- Stable (bind _ _) => apply stable_bind; [|intro]
    | |- Stable (try_ _ _) => apply stable_try
    | |- Stable (ret _) => apply stable_ret
    | |- Stable raise => apply stable_raise
    | |- Stable nofuel => apply stable_nofuel
    | |- Stable get_w => apply stable_get_w
    | |- Stable (for_ _ _) => apply stable_for; intro
    | |- Stable (retry _ _) => apply stable_retry
    | |- Stable (match ?x with _ => _ end) => destruct x
    | |- Stable _ => solve [auto with stab]
    end).

(** Primitives that read the world and write it back with one field changed. *)
Ltac prim :=
  intro; repeat (unfold bind, get_w, put_w, ret, raise, Redis.guard in *; cbn beta iota zeta);
  repeat match goal with |- context [match ?x with _ => _ end] => destruct x end;
  reflexivity.

Lemma stable_guard : Stable Redis.guard.
Proof. intro w. unfold Redis.guard. destruct (rd_up w); reflexivity. Qed.
Hint Resolve stable_guard : stab.

Lemma stable_get_entry k : Stable (Redis.get_entry k).
Proof. unfold Redis.get_entry. stab. Qed.
Hint Resolve stable_get_entry : stab.

Lemma stable_rget k : Stable (Redis.get k).
Proof. unfold Redis.get. stab. Qed.
Hint Resolve stable_rget : stab.

Lemma stable_setex k t v : Stable (Redis.setex k t v).
Proof. intro w. unfold Redis.setex, Redis.guard, bind, get_w, put_w. destruct (rd_up w); reflexivity. Qed.
Hint Resolve stable_setex : stab.

Lemma stable_delete_one k : Stable (Redis.delete_one k).
Proof.
  intro w. unfold Redis.delete_one, Redis.get_entry, Redis.guard, bind, get_w, put_w, ret.
  destruct (rd_up w); reflexivity.
Qed.
Hint Resolve stable_delete_one : stab.

Lemma stable_rdelete ks : Stable (Redis.delete ks).
Proof. induction ks; simpl; stab. Qed.
Hint Resolve stable_rdelete : stab.

Lemma stable_keys p : Stable (Redis.keys p).
Proof. unfold Redis.keys. stab. Qed.
Hint Resolve stable_keys : stab.

Lemma stable_health : Stable Weaviate.health_check.
Proof. unfold Weaviate.health_check. stab. Qed.
Lemma stable_get_conv id : Stable (Weaviate.get_conv id).
Proof. unfold Weaviate.get_conv. stab. Qed.
Lemma stable_msgs_of id : Stable (Weaviate.msgs_of id).
Proof. unfold Weaviate.msgs_of. stab. Qed.
Lemma stable_subs_of id : Stable (Weaviate.subs_of id).
Proof. unfold Weaviate.subs_of. stab. Qed.
Lemma stable_delete_conv id : Stable (Weaviate.delete_conv id).
Proof.
  intro w. unfold Weaviate.delete_conv, bind, get_w, put_w, ret.
  destruct (wv_up w && _); reflexivity.
Qed.
Lemma stable_delete_msg id : Stable (Weaviate.delete_msg id).
Proof.
  intro w. unfold Weaviate.delete_msg, bind, get_w, put_w, ret.
  destruct (wv_up w && _); reflexivity.
Qed.
Hint Resolve stable_health stable_get_conv stable_msgs_of stable_subs_of
  stable_delete_conv stable_delete_msg : stab.

Lemma stable_message_delete m : Stable (Weaviate.message_delete m).
Proof. unfold Weaviate.message_delete. stab. Qed.
Hint Resolve stable_message_delete : stab.

Lemma stable_conversation_delete f c : Stable (Weaviate.conversation_delete f c).
Proof.
  revert c. induction f as [|f IH]; intro c; simpl; stab.
Qed.
Hint Resolve stable_conversation_delete : stab.

Lemma stable_cache_meta i u t : Stable (RedisService.cache_conversation_metadata i u t).
Proof. unfold RedisService.cache_conversation_metadata, RedisService.handled. stab. Qed.
Lemma stable_get_meta i : Stable (RedisService.get_cached_conversation_metadata i).
Proof. unfold RedisService.get_cached_conversation_metadata, RedisService.handled. stab. Qed.
Hint Resolve stable_cache_meta stable_get_meta : stab.

Lemma stable_get_cached id : Stable (Chat.get_cached_conversation id).
Proof. unfold Chat.get_cached_conversation. stab. Qed.
Lemma stable_cache_conversation c : Stable (Chat.cache_conversation c).
Proof. intro w. reflexivity. Qed.
Lemma stable_clear : Stable Chat.clear_local_cache.
Proof. intro w. reflexivity. Qed.
Hint Resolve stable_get_cached stable_cache_conversation stable_clear : stab.

Lemma stable_get_conversation id : Stable (Chat.get_conversation id).
Proof. unfold Chat.get_conversation. stab. Qed.
Hint Resolve stable_get_conversation : stab.

Lemma stable_walk f c : Stable (Chat.walk_parents f c).
Proof. revert c. induction f as [|f IH]; intro c; simpl; stab. Qed.
Hint Resolve stable_walk : stab.

Lemma stable_main_chat f id : Stable (Chat.get_main_chat_id f id).
Proof. unfold Chat.get_main_chat_id. stab. Qed.
Lemma stable_decode d : Stable (Chat.decode_ids d).
Proof. unfold Chat.decode_ids. stab. Qed.
Hint Resolve stable_main_chat stable_decode : stab.

Lemma stable_all_subs m : Stable (Chat.get_all_sub_chats m).
Proof. unfold Chat.get_all_sub_chats. stab. Qed.
Hint Resolve stable_all_subs : stab.

Lemma stable_sweep ps rel : Stable (Delete.pattern_sweep ps rel).
Proof. unfold Delete.pattern_sweep. stab. Qed.
Hint Resolve stable_sweep : stab.
Lemma stable_degraded id u : Stable (Delete.degraded id u).
Proof. unfold Delete.degraded. stab. Qed.
Lemma stable_emergency id : Stable (Delete.emergency id).
Proof. unfold Delete.emergency. stab. Qed.
Lemma stable_delete_messages id : Stable (Delete.delete_messages id).
Proof. unfold Delete.delete_messages. stab. Qed.
Lemma stable_purge_related rel : Stable (Delete.purge_related rel).
Proof. unfold Delete.purge_related. stab. Qed.
Lemma stable_verify id b : Stable (Delete.verify id b).
Proof. unfold Delete.verify. stab. Qed.
Lemma stable_purge_user u : Stable (Delete.purge_user u).
Proof. unfold Delete.purge_user. stab. Qed.
Hint Resolve stable_degraded stable_emergency stable_delete_messages
  stable_purge_related stable_verify stable_purge_user : stab.

Lemma stable_delete_conversation f id : Stable (Delete.delete_conversation f id).
Proof.
  revert id. induction f as [|f IH]; intro id; simpl; [stab|].
  apply stable_try; [|stab].
  unfold Delete.body, Delete.main_path. stab.
Qed.

Lemma flags_eq w1 w2 : flags w1 = flags w2 ->
  now w1 = now w2 /\ wv_up w1 = wv_up w2 /\ rd_up w1 = rd_up w2.
Proof. unfold flags. intro H. injection H. auto. Qed.

(** *** Results ending in [return True] *)
Lemma ends_ret : EndsTrue (ret true).
Proof. intros w w' b H. injection H. auto. Qed.

Lemma ends_bind {A} (m : M A) (k : A -> M bool) :
  (forall a, EndsTrue (k a)) -> EndsTrue (bind m k).
Proof.
  intros Hk w w' b. unfold bind.
  destruct (m w) as [[a| |] w1]; try discriminate. apply Hk.
Qed.

Lemma ends_try (m h : M bool) : EndsTrue m -> EndsTrue h -> EndsTrue (try_ m h).
Proof.
  intros Hm Hh w w' b. unfold try_.
  destruct (m w) as [[a| |] w1] eqn:E; intro H.
  - injection H; intros; subst. eapply Hm; exact E.
  - eapply Hh; exact H.
  - discriminate.
Qed.

Ltac ends := repeat (cbv beta zeta; apply ends_bind; intro); apply ends_ret.

Lemma never_raise_try {A} (m h : M A) : NeverRaise h -> NeverRaise (try_ m h).
Proof.
  intros Hh w. unfold try_. destruct (m w) as [[a| |] w1]; simpl; try discriminate.
  apply Hh.
Qed.

Lemma never_raise_ret {A} (a : A) : NeverRaise (ret a).
Proof. intro w. discriminate. Qed.

(** *** Redis calls that cannot fail while Redis is reachable *)

Lemma safe_ret {A} (a : A) : Safe (ret a).
Proof. intros w _. eexists _, _. reflexivity. Qed.

Lemma safe_bind {A B} (m : M A) (k : A -> M B) :
  Stable m -> Safe m -> (forall a, Safe (k a)) -> Safe (bind m k).
Proof.
  intros Hs Hm Hk w Hw. unfold bind.
  destruct (Hm w Hw) as [a [w1 E]]. rewrite E.
  apply Hk. specialize (Hs w). rewrite E in Hs. simpl in Hs.
  apply flags_eq in Hs. destruct Hs as (_ & _ & ->). exact Hw.
Qed.

Lemma safe_try {A} (m h : M A) : Safe m -> Safe (try_ m h).
Proof.
  intros Hm w Hw. unfold try_. destruct (Hm w Hw) as [a [w1 E]]. rewrite E.
  eexists _, _. reflexivity.
Qed.

Lemma safe_for {A} (l : list A) (f : A -> M unit) :
  (forall x, Stable (f x)) -> (forall x, Safe (f x)) -> Safe (for_ l f).
Proof.
  intros Hs Hf. induction l as [|x l IH]; simpl.
  - apply safe_ret.
  - apply safe_bind; [apply Hs | apply Hf | intros _; exact IH].
Qed.

Lemma safe_guard : Safe Redis.guard.
Proof. intros w Hw. unfold Redis.guard. rewrite Hw. eexists _, _. reflexivity. Qed.

Lemma safe_get_w : Safe get_w.
Proof. intros w _. eexists _, _. reflexivity. Qed.

Lemma safe_put_w w0 : Safe (put_w w0).
Proof. intros w _. eexists _, _. reflexivity. Qed.

Create HintDb safe.
Hint Resolve safe_guard safe_get_w safe_put_w safe_ret : safe.

Ltac safe :=
  repeat (cbv beta zeta;
    match goal with
    | |- Safe (bind _ _) => apply safe_bind; [solve [stab] | | intro]
    | |- Safe (try_ _ _) => apply safe_try
    | |- Safe (for_ _ _) => apply safe_for; intro; [solve [stab] |]
    | |- Safe (match ?x with _ => _ end) => destruct x
    | |- Safe _ => solve [auto with safe]
    end).

Lemma safe_keys p : Safe (Redis.keys p).
Proof. unfold Redis.keys. safe. Qed.
Lemma safe_get_entry k : Safe (Redis.get_entry k).
Proof. unfold Redis.get_entry. safe. Qed.
Hint Resolve safe_keys safe_get_entry : safe.
Lemma safe_delete_one k : Safe (Redis.delete_one k).
Proof.
  intros w Hw. unfold Redis.delete_one, Redis.get_entry, Redis.guard, bind, get_w, put_w, ret.
  rewrite Hw. eexists _, _. reflexivity.
Qed.
Hint Resolve safe_delete_one : safe.
Lemma safe_rdelete ks : Safe (Redis.delete ks).
Proof. induction ks as [|k ks IH]; simpl; safe. Qed.
Hint Resolve safe_rdelete : safe.
Lemma safe_clear : Safe Chat.clear_local_cache.
Proof. intros w _. eexists _, _. reflexivity. Qed.
Hint Resolve safe_clear : safe.
Lemma safe_sweep ps rel : Safe (Delete.pattern_sweep ps rel).
Proof. unfold Delete.pattern_sweep. safe. Qed.
Hint Resolve safe_sweep : safe.

Lemma bind_ok {A B} (m : M A) (k : A -> M B) w a w1 :
  m w = (Ok a, w1) -> bind m k w = k a w1.
Proof. intro E. unfold bind. rewrite E. reflexivity. Qed.

Lemma health_eq w : try_ Weaviate.health_check (ret false) w = (Ok (wv_up w), w).
Proof. reflexivity. Qed.

Lemma never_raise_get_conversation id : NeverRaise (Chat.get_conversation id).
Proof. unfold Chat.get_conversation. apply never_raise_try, never_raise_ret. Qed.

Lemma ends_main_path rec f id conv user b : EndsTrue (Delete.main_path rec f id conv user b).
Proof. unfold Delete.main_path. ends. Qed.

Lemma ends_emergency id : EndsTrue (Delete.emergency id).
Proof. unfold Delete.emergency. apply ends_try; [ends | apply ends_ret]. Qed.

Lemma never_raise_emergency id : NeverRaise (Delete.emergency id).
Proof. unfold Delete.emergency. apply never_raise_try, never_raise_ret. Qed.

(** The degraded path succeeds whenever Redis is reachable ... *)
Lemma degraded_up id u w : rd_up w = true -> exists w', Delete.degraded id u w = (Ok true, w').
Proof.
  intro Hw. unfold Delete.degraded. cbv zeta. unfold try_ at 1.
  match goal with
  | |- exists w', match ?m w with _ => _ end = _ =>
      assert (Hs : Safe m) by safe; assert (He : EndsTrue m) by ends;
      destruct (Hs w Hw) as [a [w1 E]]; rewrite E;
      pose proof (He _ _ _ E); subst; eauto
  end.
Qed.

(** ... and answers [False] when it is not. *)
Lemma degraded_down id u w : rd_up w = false -> Delete.degraded id u w = (Ok false, w).
Proof.
  intro Hw. cbv [Delete.degraded try_ bind Redis.keys Redis.guard].
  rewrite Hw. reflexivity.
Qed.

Lemma body_spec rec f id w r w' :
  Delete.body rec f id w = (r, w') ->
  (wv_up w = false -> r = Ok (rd_up w) \/ r = OutOfFuel) /\
  (wv_up w = true -> r = Ok true \/ r = Raise \/ r = OutOfFuel).
Proof.
  intro H. unfold Delete.body in H.
  destruct (Chat.get_conversation id w) as [[conv| |] w1] eqn:E1.
  - rewrite (bind_ok _ _ _ _ _ E1) in H. cbv beta zeta in H.
    rewrite (bind_ok _ _ _ _ _ (health_eq w1)) in H.
    pose proof (stable_get_conversation id w) as Hs. rewrite E1 in Hs. simpl in Hs.
    apply flags_eq in Hs. destruct Hs as (_ & Hwv & Hrd).
    rewrite <- Hwv, <- Hrd.
    destruct (wv_up w1) eqn:Ew; cbn [negb] in H.
    + split; [intro Hc; discriminate Hc|]. intros _.
      destruct r as [b| |]; auto. left. f_equal.
      exact (ends_main_path _ _ _ _ _ _ _ _ _ H).
    + split; [|intro Hc; discriminate Hc]. intros _. left.
      destruct (rd_up w1) eqn:Er.
      * destruct (degraded_up id (option_map cuser conv) w1 Er) as [w2 E2].
        rewrite E2 in H. injection H. intros; subst. reflexivity.
      * rewrite (degraded_down _ _ _ Er) in H. injection H. intros; subst. reflexivity.
  - exfalso. apply (never_raise_get_conversation id w). rewrite E1. reflexivity.
  - unfold bind in H. rewrite E1 in H. injection H. intros; subst. auto.
Qed.

Lemma delete_spec fuel id w r w' :
  Delete.delete_conversation fuel id w = (r, w') ->
  r <> Raise /\ (forall b, r = Ok b -> (b = false <-> wv_up w = false /\ rd_up w = false)).
Proof.
  destruct fuel as [|f]; simpl; intro H.
  - injection H. intros; subst. split; [discriminate | intros b Hb; discriminate].
  - unfold try_ in H.
    destruct (Delete.body (Delete.delete_conversation f) f id w) as [r1 w1] eqn:E.
    destruct (body_spec _ _ _ _ _ _ E) as [Hd Hu].
    destruct r1 as [b1| |].
    + injection H. intros; subst. split; [discriminate|].
      intros b Hb. injection Hb. intros; subst.
      destruct (wv_up w) eqn:Wv.
      * destruct (Hu eq_refl) as [Hx|[Hx|Hx]]; try discriminate.
        injection Hx. intros; subst. split; [discriminate | intros [Hf _]; discriminate].
      * destruct (Hd eq_refl) as [Hx|Hx]; try discriminate.
        injection Hx. intros; subst.
        destruct (rd_up w); split; auto; intros [_ Hf]; discriminate.
    + destruct (wv_up w) eqn:Wv.
      2: destruct (Hd eq_refl); discriminate.
      split.
      * intro Hr. apply (never_raise_emergency id w1). rewrite H. exact Hr.
      * intros b Hb. subst. rewrite (ends_emergency _ _ _ _ H).
        split; [discriminate | intros [Hf _]; discriminate].
    + injection H. intros; subst. split; [discriminate | intros b Hb; discriminate].
Qed.

(** *** The parent walk of [_get_main_chat_id] *)
Lemma never_raise_walk f c : NeverRaise (Chat.walk_parents f c).
Proof.
  revert c. induction f as [|f IH]; intros c w; simpl; [discriminate|].
  destruct (Chat.truthy (cparent c)) as [p|]; [|discriminate].
  unfold bind. destruct (Chat.get_conversation p w) as [[[pc|]| |] w1] eqn:E.
  - apply IH.
  - discriminate.
  - exfalso. apply (never_raise_get_conversation p w). rewrite E. reflexivity.
  - discriminate.
Qed.

(** The fuel never cuts a walk short: a walk that ends, ends the same with more fuel. *)
Lemma walk_mono f f' c w m w' :
  (f <= f')%nat -> Chat.walk_parents f c w = (Ok m, w') -> Chat.walk_parents f' c w = (Ok m, w').
Proof.
  revert f' c w. induction f as [|f IH]; intros f' c w Hle H; [discriminate|].
  destruct f' as [|f']; [lia|]. simpl in *.
  destruct (Chat.truthy (cparent c)) as [p|]; [|exact H].
  unfold bind in *. destruct (Chat.get_conversation p w) as [[[pc|]| |] w1]; try exact H.
  apply IH; [lia | exact H].
Qed.

Lemma main_chat_mono f f' id w m w' :
  (f <= f')%nat -> Chat.get_main_chat_id f id w = (Ok m, w') ->
  Chat.get_main_chat_id f' id w = (Ok m, w').
Proof.
  intros Hle. unfold Chat.get_main_chat_id, try_.
  destruct (Chat.get_conversation id w) as [[[c|]| |] w1] eqn:E.
  - rewrite !(bind_ok _ _ _ _ _ E). cbv beta iota.
    destruct (Chat.walk_parents f c w1) as [[a| |] w2] eqn:W; intro H.
    + injection H. intros; subst. rewrite (walk_mono _ _ _ _ _ _ Hle W). reflexivity.
    + exfalso. apply (never_raise_walk f c w1). rewrite W. reflexivity.
    + discriminate.
  - rewrite !(bind_ok _ _ _ _ _ E). tauto.
  - exfalso. apply (never_raise_get_conversation id w). rewrite E. reflexivity.
  - unfold bind. rewrite E. discriminate.
Qed.

(** *** Strings of the key derivation *)
Lemma substring_prefix n s :
  substring 0 n s = string_of_list_ascii (firstn n (list_ascii_of_string s)).
Proof.
  revert n. induction s as [|c s IH]; intros [|n]; simpl; try reflexivity.
  rewrite IH. reflexivity.
Qed.

Lemma list_ascii_app s1 s2 :
  list_ascii_of_string (s1 ++ s2) = list_ascii_of_string s1 ++ list_ascii_of_string s2.
Proof. induction s1 as [|c s1 IH]; simpl; [reflexivity | rewrite IH; reflexivity]. Qed.

Lemma nibble_range w k : 0 <= Z.land (Z.shiftr w k) 15 < 16.
Proof.
  change 15 with (Z.ones 4). rewrite Z.land_ones by lia.
  pose proof (Z.mod_pos_bound (Z.shiftr w k) (2 ^ 4) ltac:(reflexivity)). exact H.
Qed.

(** *** Redis commands on a reachable server *)

Lemma rget_eq k w : rd_up w = true -> Redis.get k w = (Ok (live_value k w), w).
Proof.
  intro H. cbv [Redis.get Redis.get_entry Redis.guard bind get_w ret]. rewrite H.
  unfold live_value. destruct (Redis.lookup k (rd w)) as [e|]; [destruct (Redis.live w e)|];
    reflexivity.
Qed.

(** The metadata read answers [None] in every state and changes nothing. *)
Lemma get_meta_none id w :
  RedisService.get_cached_conversation_metadata id w = (Ok None, w).
Proof.
  unfold RedisService.get_cached_conversation_metadata, RedisService.handled, try_.
  destruct (rd_up w) eqn:Hup.
  - rewrite (bind_ok _ _ _ _ _ (rget_eq _ _ Hup)).
    destruct (live_value (RedisService.get_metadata_key id) w); reflexivity.
  - cbv [Redis.get Redis.get_entry Redis.guard bind]. rewrite Hup. reflexivity.
Qed.

Lemma setex_eq k t v w : rd_up w = true ->
  Redis.setex k t v w = (Ok tt, set_rd w (Redis.put_key k (v, Some (now w + t)) (rd w))).
Proof. intro H. cbv [Redis.setex Redis.guard bind get_w put_w]. rewrite H. reflexivity. Qed.

(** *** Conversation reads against a local cache that agrees with Weaviate *)
Lemma dict_get_in {V} k (l : list (string * V)) v : Chat.dict_get k l = Some v -> In (k, v) l.
Proof.
  induction l as [|[k' v'] l IH]; simpl; [discriminate|].
  destruct (String.eqb k k') eqn:E; intro H.
  - injection H as <-. apply String.eqb_eq in E. subst. left. reflexivity.
  - right. auto.
Qed.

Lemma dict_set_in {V} k v (l : list (string * V)) p :
  In p (Chat.dict_set k v l) -> p = (k, v) \/ In p l.
Proof.
  induction l as [|[k' v'] l IH]; simpl.
  - intros [H|[]]. left. symmetry. exact H.
  - destruct (String.eqb k k'); simpl; intros [H|H].
    + left. symmetry. exact H.
    + right. right. exact H.
    + right. left. exact H.
    + destruct (IH H) as [H'|H']; [left | right; right]; exact H'.
Qed.

Lemma tl_in {A} (l : list A) x : In x (tl l) -> In x l.
Proof. destruct l; simpl; tauto. Qed.

Lemma find_conv_cid id cs c : find_conv id cs = Some c -> cid c = id /\ In c cs.
Proof.
  unfold find_conv. intro H. destruct (find_some _ _ H) as [Hin Hc].
  apply String.eqb_eq in Hc. auto.
Qed.

Lemma cache_meta_frame i u t w : exists o w',
  RedisService.cache_conversation_metadata i u t w = (Ok o, w') /\
  wv_up w' = wv_up w /\ wv_convs w' = wv_convs w /\ lc w' = lc w.
Proof.
  unfold RedisService.cache_conversation_metadata, RedisService.handled, try_.
  destruct (rd_up w) eqn:H.
  - rewrite (bind_ok get_w _ w w w eq_refl).
    rewrite (bind_ok _ _ _ _ _ (setex_eq _ _ _ _ H)).
    do 2 eexists. split; [reflexivity | auto].
  - cbv [bind get_w Redis.setex Redis.guard]. rewrite H.
    do 2 eexists. split; [reflexivity | auto].
Qed.

(** With Weaviate reachable and a local cache that agrees with it, a read
    answers the Weaviate record and keeps the agreement. *)
Lemma get_conversation_agrees id w :
  wv_up w = true -> cache_agrees w ->
  exists w', Chat.get_conversation id w = (Ok (find_conv id (wv_convs w)), w') /\
             wv_up w' = true /\ wv_convs w' = wv_convs w /\ cache_agrees w'.
Proof.
  intros Hup Hag. unfold Chat.get_conversation, try_.
  destruct (Chat.dict_get id (lc w)) as [c|] eqn:Hd.
  - rewrite (bind_ok _ _ w (Some c) w)
      by (cbv [Chat.get_cached_conversation bind get_w ret]; rewrite Hd; reflexivity).
    cbv [ret]. exists w. split; [|auto].
    unfold cache_agrees in Hag. rewrite Forall_forall in Hag.
    pose proof (Hag _ (dict_get_in _ _ _ Hd)) as H. simpl in H. rewrite H. reflexivity.
  - rewrite (bind_ok _ _ w None w)
      by (cbv [Chat.get_cached_conversation bind get_w ret]; rewrite Hd; reflexivity).
    rewrite (bind_ok _ _ _ _ _ (get_meta_none id w)).
    assert (Eg : Weaviate.get_conv id w = (Ok (find_conv id (wv_convs w)), w))
      by (cbv [Weaviate.get_conv bind get_w ret]; rewrite Hup; reflexivity).
    rewrite (bind_ok _ _ _ _ _ Eg).
    destruct (find_conv id (wv_convs w)) as [c|] eqn:Hf.
    + destruct (cache_meta_frame (cid c) (cuser c) (ctitle c) w)
        as [o [w1 [E1 [U1 [C1 L1]]]]].
      rewrite (bind_ok _ _ _ _ _ E1).
      cbv [Chat.cache_conversation bind get_w put_w ret].
      eexists. split; [reflexivity|].
      cbn [wv_up wv_convs lc set_lc]. rewrite U1, C1, L1.
      split; [exact Hup | split; [reflexivity|]].
      destruct (find_conv_cid _ _ _ Hf) as [Hc _].
      unfold cache_agrees. rewrite Forall_forall. intros p Hp.
      cbn [wv_convs lc set_lc] in *. try rewrite C1. try rewrite L1 in Hp.
      assert (Hin : In p (Chat.dict_set (cid c) c (lc w))).
      { destruct (100 <? List.length (Chat.dict_set (cid c) c (lc w)))%nat;
          [apply tl_in|]; exact Hp. }
      destruct (dict_set_in _ _ _ _ Hin) as [->|H].
      * simpl. rewrite Hc. exact Hf.
      * unfold cache_agrees in Hag. rewrite Forall_forall in Hag. exact (Hag p H).
    + cbv [ret]. exists w. auto.
Qed.

Lemma last_default {A} (l : list A) a b : l <> [] -> last l a = last l b.
Proof.
  induction l as [|x [|y l] IH]; intro H; [congruence | reflexivity |].
  simpl. apply IH. discriminate.
Qed.

Lemma id_chain_cons cs i rest :
  id_chain cs (i :: rest) =
  match find_conv i cs with
  | None => false
  | Some c =>
      match Chat.truthy (cparent c), rest with
      | None, [] => true
      | Some p, [] => match find_conv p cs with None => true | Some _ => false end
      | Some p, j :: _ => String.eqb p j && id_chain cs rest
      | None, _ :: _ => false
      end
  end.
Proof. reflexivity. Qed.

(** The walk follows a parent chain to its end, one unit of fuel a link. *)
Lemma walk_chain rest : forall i c f w,
  wv_up w = true -> cache_agrees w -> find_conv i (wv_convs w) = Some c ->
  id_chain (wv_convs w) (i :: rest) = true -> (List.length rest < f)%nat ->
  exists w', Chat.walk_parents f c w = (Ok (last rest i), w').
Proof.
  induction rest as [|j rest IH]; intros i c f w Hup Hag Hf Hch Hlen;
    (destruct f as [|f]; [simpl in Hlen; lia|]);
    rewrite id_chain_cons, Hf in Hch; cbn [Chat.walk_parents];
    destruct (find_conv_cid _ _ _ Hf) as [Hc _].
  - destruct (Chat.truthy (cparent c)) as [p|] eqn:Hp.
    + destruct (find_conv p (wv_convs w)) eqn:Hfp; [discriminate|].
      destruct (get_conversation_agrees p w Hup Hag) as [w1 [E _]].
      rewrite Hfp in E. rewrite (bind_ok _ _ _ _ _ E). cbv [ret].
      exists w1. rewrite Hc. reflexivity.
    + cbv [ret]. exists w. rewrite Hc. reflexivity.
  - destruct (Chat.truthy (cparent c)) as [p|] eqn:Hp; [|discriminate].
    apply andb_prop in Hch as [Hpj Hch]. apply String.eqb_eq in Hpj. subst p.
    pose proof Hch as Hch'. rewrite id_chain_cons in Hch'.
    destruct (find_conv j (wv_convs w)) as [c'|] eqn:Hfj; [|discriminate].
    destruct (get_conversation_agrees j w Hup Hag) as [w1 [E [U1 [C1 A1]]]].
    rewrite Hfj in E. rewrite (bind_ok _ _ _ _ _ E).
    assert (Hl : last (j :: rest) i = last rest j).
    { destruct rest as [|k rest]; [reflexivity|].
      change (last (k :: rest) i = last (k :: rest) j). apply last_default. discriminate. }
    rewrite Hl. apply IH; [exact U1 | exact A1 | rewrite C1; exact Hfj
                          | rewrite C1; exact Hch | simpl in Hlen; lia].
Qed.

(** A walk that enters a set of records whose parents never leave it runs
    out of any fuel. *)
Lemma walk_closed ids f : forall c w,
  wv_up w = true -> cache_agrees w -> parents_closed (wv_convs w) ids = true ->
  (exists i, In i ids /\ find_conv i (wv_convs w) = Some c) ->
  fst (Chat.walk_parents f c w) = OutOfFuel.
Proof.
  induction f as [|f IH]; intros c w Hup Hag Hcl [i [Hi Hf]]; [reflexivity|].
  pose proof Hcl as Hcl'. unfold parents_closed in Hcl'. rewrite forallb_forall in Hcl'.
  pose proof (Hcl' i Hi) as H. rewrite Hf in H.
  destruct (Chat.truthy (cparent c)) as [p|] eqn:Hp; [|discriminate].
  apply existsb_exists in H as [p' [Hp' Eq]]. apply String.eqb_eq in Eq. subst p'.
  pose proof (Hcl' p Hp') as H2.
  destruct (find_conv p (wv_convs w)) as [c'|] eqn:Hfp; [|discriminate].
  cbn [Chat.walk_parents]. rewrite Hp.
  destruct (get_conversation_agrees p w Hup Hag) as [w1 [E [U1 [C1 A1]]]].
  rewrite Hfp in E. rewrite (bind_ok _ _ _ _ _ E).
  apply IH; [exact U1 | exact A1 | rewrite C1; exact Hcl |].
  exists p. rewrite C1. auto.
Qed.

Lemma delete1_eq k w : rd_up w = true ->
  exists n, Redis.delete [k] w = (Ok n, set_rd (set_rd w (Redis.remove_key k (rd w))) (Redis.remove_key k (rd w))) .
Proof.
  intro H. cbv [Redis.delete Redis.delete_one Redis.get_entry Redis.guard bind get_w put_w ret].
  rewrite H. cbn [rd_up set_rd]. rewrite H. eexists. reflexivity.
Qed.

Lemma lookup_put_same k e r : Redis.lookup k (Redis.put_key k e r) = Some e.
Proof.
  induction r as [|[k' e'] r IH]; simpl.
  - rewrite String.eqb_refl. reflexivity.
  - destruct (String.eqb k k') eqn:E; simpl.
    + rewrite String.eqb_refl. reflexivity.
    + rewrite E. exact IH.
Qed.


Lemma lookup_remove_same k r : Redis.lookup k (Redis.remove_key k r) = None.
Proof.
  induction r as [|[k' e'] r IH]; simpl; [reflexivity|].
  destruct (String.eqb k k') eqn:E; simpl; [exact IH|]. rewrite E. exact IH.
Qed.


Lemma sub_main_neq a b : String.eqb (Chat.sub_key a) (Chat.main_key b) = false.
Proof. reflexivity. Qed.


Lemma lookup_remove k k' r :
  Redis.lookup k (Redis.remove_key k' r) = if String.eqb k k' then None else Redis.lookup k r.
Proof.
  destruct (String.eqb k k') eqn:E.
  - apply String.eqb_eq in E. subst. apply lookup_remove_same.
  - induction r as [|[k'' e''] r IH]; simpl; [reflexivity|].
    destruct (String.eqb k' k'') eqn:E2; simpl.
    + apply String.eqb_eq in E2. subst k''. rewrite E. exact IH.
    + destruct (String.eqb k k''); [reflexivity | exact IH].
Qed.


Lemma edges_remove r k : edges_ok_rd r -> edges_ok_rd (Redis.remove_key k r).
Proof.
  intros Hr k' l e' H. rewrite lookup_remove in H.
  destruct (String.eqb k' k); [discriminate | exact (Hr _ _ _ H)].
Qed.

Lemma live_value_lookup k w v :
  live_value k w = Some v -> exists e, Redis.lookup k (rd w) = Some (v, e).
Proof.
  unfold live_value. destruct (Redis.lookup k (rd w)) as [[v' e]|]; [|discriminate].
  destruct (Redis.live w (v', e)); [|discriminate].
  intro H. injection H. intros ->. eauto.
Qed.

Lemma existsb_in x l : existsb (String.eqb x) l = true <-> In x l.
Proof.
  rewrite existsb_exists. split.
  - intros [y [Hy E]]. apply String.eqb_eq in E. subst. exact Hy.
  - intro H. exists x. split; [exact H | apply String.eqb_refl].
Qed.

Lemma remove_first_incl x l z : In z (Py.remove_first x l) -> In z l.
Proof.
  induction l as [|y l IH]; simpl; [tauto|].
  destruct (String.eqb x y); simpl; [tauto|]. intros [H|H]; [left; exact H | right; auto].
Qed.

Lemma remove_first_nodup x l :
  NoDup l -> NoDup (Py.remove_first x l) /\ ~ In x (Py.remove_first x l).
Proof.
  induction l as [|y l IH]; simpl; intro Hn; [split; [constructor | tauto]|].
  inversion Hn as [|y' l' Hy Hl]; subst.
  destruct (String.eqb x y) eqn:E.
  - apply String.eqb_eq in E. subst. split; assumption.
  - destruct (IH Hl) as [IH1 IH2]. split.
    + constructor; [|exact IH1]. intro Hin. apply Hy. eapply remove_first_incl. exact Hin.
    + simpl. intros [H|H]; [subst; rewrite String.eqb_refl in E; discriminate | exact (IH2 H)].
Qed.

Lemma nodup_app_single (l : list string) (x : string) : NoDup l -> ~ In x l -> NoDup (l ++ [x]).
Proof.
  intros Hl Hx. apply NoDup_app; [exact Hl | repeat constructor; simpl; tauto |].
  intros y Hy [Hy'|[]]. subst. contradiction.
Qed.





Lemma live_value_removed k w : live_value k (set_rd w (Redis.remove_key k (rd w))) = None.
Proof. unfold live_value. simpl. rewrite lookup_remove_same. reflexivity. Qed.




(** *** The local cache *)
Lemma keep_ret {A} (a : A) : KeepLc (ret a).
Proof. intro w; reflexivity. Qed.
Lemma keep_raise {A} : KeepLc (@raise A).
Proof. intro w; reflexivity. Qed.
Lemma keep_nofuel {A} : KeepLc (@nofuel A).
Proof. intro w; reflexivity. Qed.
Lemma keep_get_w : KeepLc get_w.
Proof. intro w; reflexivity. Qed.

Lemma keep_bind {A B} (m : M A) (k : A -> M B) :
  KeepLc m -> (forall a, KeepLc (k a)) -> KeepLc (bind m k).
Proof.
  intros Hm Hk w. unfold bind. specialize (Hm w).
  destruct (m w) as [[a| |] w1]; simpl in *; try exact Hm.
  rewrite Hk. exact Hm.
Qed.

Lemma keep_try {A} (m h : M A) : KeepLc m -> KeepLc h -> KeepLc (try_ m h).
Proof.
  intros Hm Hh w. unfold try_. specialize (Hm w).
  destruct (m w) as [[a| |] w1]; simpl in *; try exact Hm.
  rewrite Hh. exact Hm.
Qed.

Lemma keep_for {A} (l : list A) (f : A -> M unit) :
  (forall x, KeepLc (f x)) -> KeepLc (for_ l f).
Proof.
  intros Hf. induction l as [|x l IH]; simpl.
  - apply keep_ret.
  - apply keep_bind; [apply Hf | intros _; exact IH].
Qed.

Lemma keep_retry (n : nat) (op : M bool) : KeepLc op -> KeepLc (retry n op).
Proof.
  intros Hop. induction n as [|n IH]; simpl.
  - apply keep_ret.
  - apply keep_bind; [apply keep_try; [exact Hop | apply keep_ret]|].
    intros [|]; [apply keep_ret | exact IH].
Qed.

Create HintDb keep.

Ltac keep :=
  repeat (cbv beta zeta;
    match goal with
    | |- KeepLc (bind _ _) => apply keep_bind; [|intro]
    | |- KeepLc (try_ _ _) => apply keep_try
    | |- KeepLc (ret _) => apply keep_ret
    | |- KeepLc raise => apply keep_raise
    | |- KeepLc nofuel => apply keep_nofuel
    | |- KeepLc get_w => apply keep_get_w
    | |- KeepLc (for_ _ _) => apply keep_for; intro
    | |- KeepLc (retry _ _) => apply keep_retry
    | |- KeepLc (match ?x with _ => _ end) => destruct x
    | |- KeepLc _ => solve [auto with keep]
    end).

Lemma keep_guard : KeepLc Redis.guard.
Proof. intro w. unfold Redis.guard. destruct (rd_up w); reflexivity. Qed.
Hint Resolve keep_guard : keep.
Lemma keep_get_entry k : KeepLc (Redis.get_entry k).
Proof. unfold Redis.get_entry. keep. Qed.
Hint Resolve keep_get_entry : keep.
Lemma keep_rget k : KeepLc (Redis.get k).
Proof. unfold Redis.get. keep. Qed.
Lemma keep_setex k t v : KeepLc (Redis.setex k t v).
Proof. intro w. unfold Redis.setex, Redis.guard, bind, get_w, put_w. destruct (rd_up w); reflexivity. Qed.
Lemma keep_delete_one k : KeepLc (Redis.delete_one k).
Proof.
  intro w. unfold Redis.delete_one, Redis.get_entry, Redis.guard, bind, get_w, put_w, ret.
  destruct (rd_up w); reflexivity.
Qed.
Hint Resolve keep_rget keep_setex keep_delete_one : keep.
Lemma keep_rdelete ks : KeepLc (Redis.delete ks).
Proof. induction ks; simpl; keep. Qed.
Lemma keep_keys p : KeepLc (Redis.keys p).
Proof. unfold Redis.keys. keep. Qed.
Hint Resolve keep_rdelete keep_keys : keep.

Lemma keep_health : KeepLc Weaviate.health_check.
Proof. unfold Weaviate.health_check. keep. Qed.
Lemma keep_get_conv id : KeepLc (Weaviate.get_conv id).
Proof. unfold Weaviate.get_conv. keep. Qed.
Lemma keep_msgs_of id : KeepLc (Weaviate.msgs_of id).
Proof. unfold Weaviate.msgs_of. keep. Qed.
Lemma keep_delete_conv id : KeepLc (Weaviate.delete_conv id).
Proof.
  intro w. unfold Weaviate.delete_conv, bind, get_w, put_w, ret.
  destruct (wv_up w && _); reflexivity.
Qed.
Lemma keep_delete_msg id : KeepLc (Weaviate.delete_msg id).
Proof.
  intro w. unfold Weaviate.delete_msg, bind, get_w, put_w, ret.
  destruct (wv_up w && _); reflexivity.
Qed.
Hint Resolve keep_health keep_get_conv keep_msgs_of keep_delete_conv keep_delete_msg : keep.
Lemma keep_message_delete m : KeepLc (Weaviate.message_delete m).
Proof. unfold Weaviate.message_delete. keep. Qed.
Hint Resolve keep_message_delete : keep.
Lemma keep_conversation_delete f c : KeepLc (Weaviate.conversation_delete f c).
Proof. revert c. induction f as [|f IH]; intro c; simpl; keep. Qed.
Hint Resolve keep_conversation_delete : keep.
Lemma keep_cache_meta i u t : KeepLc (RedisService.cache_conversation_metadata i u t).
Proof. unfold RedisService.cache_conversation_metadata, RedisService.handled. keep. Qed.
Lemma keep_get_meta i : KeepLc (RedisService.get_cached_conversation_metadata i).
Proof. unfold RedisService.get_cached_conversation_metadata, RedisService.handled. keep. Qed.
Lemma keep_get_cached id : KeepLc (Chat.get_cached_conversation id).
Proof. unfold Chat.get_cached_conversation. keep. Qed.
Hint Resolve keep_cache_meta keep_get_meta keep_get_cached : keep.
Lemma keep_sweep ps rel : KeepLc (Delete.pattern_sweep ps rel).
Proof. unfold Delete.pattern_sweep. keep. Qed.
Hint Resolve keep_sweep : keep.
Lemma keep_purge_user u : KeepLc (Delete.purge_user u).
Proof. unfold Delete.purge_user. keep. Qed.
Hint Resolve keep_purge_user : keep.


















End Facts.

Example sha256_abc :
  Sha256.hexdigest "abc"%string
  = "ba7816bf8f01cfea414140de5dae2223b00361a396177a9cb410ff61f20015ad"%string.
Proof. vm_compute. reflexivity. Qed.

Example sha256_empty :
  Sha256.hexdigest ""%string
  = "e3b0c44298fc1c149afbf4c8996fb92427ae41e4649b934ca495991b7852b855"%string.
Proof. vm_compute. reflexivity. Qed.

Section Checks.
Import Scenarios.
Local Open Scope string_scope.

Example hash_key_meta_M : RedisService.hash_key "meta:M" = "pgpt:11a9fd5f1a9b".
Proof. vm_compute. reflexivity. Qed.

(** Scenario A of the spec: the sub-chat [S] inherits its parent's message. *)
Example scenario_A :
  fst (Context.get_conversation_context "S" 10 false tree) = Ok [("user", "hello"); ("user", "hi")].
Proof. vm_compute. reflexivity. Qed.

(** C1 (cascade completeness).  Deleting the main chat [M] of [wide]
    returns [true] but leaves its 101st sub-chat behind.  The live
    main-chat key makes [_get_all_sub_chats("M")] answer [[]] (its
    [json.loads] raises), so STEP 4 deletes no sub-chat; the record delete of
    [M] then removes only the 100 sub-chats its one [parent_id] query
    returns.  Afterwards Weaviate still holds [xs 101], [_get_all_sub_chats]
    lists it and [get_conversation] reads it. *)
Theorem delete_main_leaves_sub_readable :
  fst (Chat.get_all_sub_chats "M" wide) = Ok [] /\
  (let (r, w1) := Delete.delete_conversation 10 "M" wide in
   r = Ok true /\ map cid (wv_convs w1) = [xs 101] /\
   fst (Chat.get_all_sub_chats "M" w1) = Ok [xs 101] /\
   fst (Chat.get_conversation (xs 101) w1) =
     Ok (Some (mkConv (xs 101) "U" "sub" (Some "M") false))).
Proof.
  split; [vm_compute; reflexivity|].
  vm_compute. split; [reflexivity|]. split; [reflexivity|]. split; reflexivity.
Qed.

(** C3 (context budget).  With the budget [limit = 0], a query-string value
    the route accepts, [context_messages[-0:]] keeps the whole list: the
    main chat [M] gets one entry and the inheriting sub-chat [S] two, both
    more than [0] (and more than [2 * 0]). *)
Theorem context_budget_zero :
  fst (Context.get_conversation_context "M" 0 false tree) = Ok [("user", "hello")] /\
  fst (Context.get_conversation_context "S" 0 false tree) = Ok [("user", "hello"); ("user", "hi")].
Proof. split; vm_compute; reflexivity. Qed.

(** C6 counterexample: the Redis key keeps 12 hex digits of the SHA-256
    digest, i.e. 48 bits, fewer than 80. *)
Lemma hash_key_keeps_48_bits :
  RedisService.hash_key "meta:M" = ("pgpt:" ++ "11a9fd5f1a9b")%string /\
  4 * Z.of_nat (String.length "11a9fd5f1a9b") = 48 /\ 48 < 80.
Proof. vm_compute. repeat split; reflexivity. Qed.


End Checks.

Section Deletion.
Import Scenarios.
Local Open Scope string_scope.

(** C2 (idempotent delete).  [delete_conversation] never raises.  When it
    returns a boolean, that boolean is [false] exactly when the Weaviate
    health check fails and Redis is unreachable, and [true] otherwise; a
    second call on the same id, run in the state the first left behind,
    returns the same boolean. *)
Theorem delete_conversation_idempotent fuel1 fuel2 id w r1 w1 r2 w2 :
  Delete.delete_conversation fuel1 id w = (r1, w1) ->
  Delete.delete_conversation fuel2 id w1 = (r2, w2) ->
  r1 <> Raise /\ r2 <> Raise /\
  (forall b, r1 = Ok b -> (b = false <-> wv_up w = false /\ rd_up w = false)) /\
  (forall b1 b2, r1 = Ok b1 -> r2 = Ok b2 -> b2 = b1).
Proof.
  intros H1 H2.
  destruct (Facts.delete_spec _ _ _ _ _ H1) as [N1 S1].
  destruct (Facts.delete_spec _ _ _ _ _ H2) as [N2 S2].
  pose proof (Facts.stable_delete_conversation fuel1 id w) as Hs.
  rewrite H1 in Hs. simpl in Hs. apply Facts.flags_eq in Hs.
  destruct Hs as (_ & Hwv & Hrd).
  split; [exact N1|]. split; [exact N2|]. split; [exact S1|].
  intros b1 b2 E1 E2.
  specialize (S1 b1 E1). specialize (S2 b2 E2). rewrite Hwv, Hrd in S2.
  destruct b1, b2; try reflexivity.
  - symmetry. apply S1. apply S2. reflexivity.
  - apply S2. apply S1. reflexivity.
Qed.

(** Witness: the never-created id [ghost-123], deleted twice from [tree]. *)
Lemma delete_conversation_idempotent_witness :
  let p1 := Delete.delete_conversation 10 "ghost-123" tree in
  let p2 := Delete.delete_conversation 10 "ghost-123" (snd p1) in
  fst p1 = Ok true /\ fst p2 = Ok true /\
  (fst p1 <> Raise /\ fst p2 <> Raise /\
   (forall b, fst p1 = Ok b -> (b = false <-> wv_up tree = false /\ rd_up tree = false)) /\
   (forall b1 b2, fst p1 = Ok b1 -> fst p2 = Ok b2 -> b2 = b1)).
Proof.
  intros p1 p2. split; [vm_compute; reflexivity|]. split; [vm_compute; reflexivity|].
  apply (delete_conversation_idempotent 10 10 "ghost-123" tree (fst p1) (snd p1) (fst p2) (snd p2));
    vm_compute; reflexivity.
Defined.

(** C2 counterexample: with both Weaviate and Redis down, deleting the
    never-created id [ghost-123] returns [false]. *)
Lemma delete_both_down_false :
  fst (Delete.delete_conversation 10 "ghost-123" tree_down) = Ok false.
Proof. vm_compute. reflexivity. Qed.

End Deletion.

Section Hierarchy.
Import Scenarios.
Local Open Scope string_scope.

Lemma cyc_A0 : Chat.get_conversation "A" cyclic = (Ok (Some convA), cyc1).
Proof. vm_compute. reflexivity. Qed.
Lemma cyc_B1 : Chat.get_conversation "B" cyc1 = (Ok (Some convB), cyc2).
Proof. vm_compute. reflexivity. Qed.
Lemma cyc_A2 : Chat.get_conversation "A" cyc2 = (Ok (Some convA), cyc2).
Proof. vm_compute. reflexivity. Qed.
Lemma cyc_B2 : Chat.get_conversation "B" cyc2 = (Ok (Some convB), cyc2).
Proof. vm_compute. reflexivity. Qed.

(** Once [A] and [B] sit in the local cache, the walk goes round for ever. *)
Lemma walk_cycle_stuck f :
  fst (Chat.walk_parents f convA cyc2) = OutOfFuel /\
  fst (Chat.walk_parents f convB cyc2) = OutOfFuel.
Proof.
  induction f as [|f IH]; [split; reflexivity|].
  split.
  - change (fst (bind (Chat.get_conversation "B")
               (fun pc => match pc with None => ret "A" | Some pc => Chat.walk_parents f pc end)
               cyc2) = OutOfFuel).
    rewrite (Facts.bind_ok _ _ _ _ _ cyc_B2). apply IH.
  - change (fst (bind (Chat.get_conversation "A")
               (fun pc => match pc with None => ret "B" | Some pc => Chat.walk_parents f pc end)
               cyc2) = OutOfFuel).
    rewrite (Facts.bind_ok _ _ _ _ _ cyc_A2). apply IH.
Qed.

Lemma main_chat_cyclic f : fst (Chat.get_main_chat_id f "A" cyclic) = OutOfFuel.
Proof.
  unfold Chat.get_main_chat_id, try_.
  rewrite (Facts.bind_ok _ _ _ _ _ cyc_A0). cbv beta iota.
  destruct f as [|f]; [reflexivity|].
  change (Chat.walk_parents (S f) convA cyc1) with
    (bind (Chat.get_conversation "B")
       (fun pc => match pc with None => ret "A" | Some pc => Chat.walk_parents f pc end) cyc1).
  rewrite (Facts.bind_ok _ _ _ _ _ cyc_B1).
  destruct (walk_cycle_stuck f) as [_ HB].
  destruct (Chat.walk_parents f convB cyc2) as [[a| |] w'];
    simpl in HB; try discriminate; reflexivity.
Qed.

Lemma main_chat_deep : fst (Chat.get_main_chat_id 100 (xs 70) deep) = Ok (xs 0).
Proof. vm_compute. reflexivity. Qed.

(** C5 counterexample: there is no depth bound and no [CycleOrExcessiveDepth]
    error.  A chain of 70 parent links (more than 64) is walked to its root,
    and on the cycle [A -> B -> A] no amount of fuel ends the walk. *)
Lemma main_chat_unbounded :
  (forall f, fst (Chat.get_main_chat_id f "A" cyclic) = OutOfFuel) /\
  fst (Chat.get_main_chat_id 100 (xs 70) deep) = Ok (xs 0).
Proof. split; [exact main_chat_cyclic | exact main_chat_deep]. Qed.

(** C5 (as the code has it).  [_get_main_chat_id] never raises.  It returns
    the id itself when the conversation is not found, and the conversation's
    id when it has no parent.  Otherwise it follows the parent links with no
    depth bound and stops at the first ancestor with no parent or whose
    parent is not found; a walk that ends gives the same answer with any
    larger fuel.  With Weaviate reachable and a local cache that agrees with
    it, a parent chain of any length is walked to its end, and a walk that
    reaches records whose parents form a cycle never ends. *)
Theorem get_main_chat_id_walk :
  (forall f id w, fst (Chat.get_main_chat_id f id w) <> Raise) /\
  (forall f id w w1, Chat.get_conversation id w = (Ok None, w1) ->
     Chat.get_main_chat_id f id w = (Ok id, w1)) /\
  (forall f id w c w1, Chat.get_conversation id w = (Ok (Some c), w1) ->
     Chat.truthy (cparent c) = None ->
     Chat.get_main_chat_id (S f) id w = (Ok (cid c), w1)) /\
  (forall f id w c p w1 w2, Chat.get_conversation id w = (Ok (Some c), w1) ->
     Chat.truthy (cparent c) = Some p -> Chat.get_conversation p w1 = (Ok None, w2) ->
     Chat.get_main_chat_id (S f) id w = (Ok (cid c), w2)) /\
  (forall f f' id w m w', (f <= f')%nat -> Chat.get_main_chat_id f id w = (Ok m, w') ->
     Chat.get_main_chat_id f' id w = (Ok m, w')) /\
  (forall f i rest w, wv_up w = true -> Facts.cache_agrees w ->
     Facts.id_chain (wv_convs w) (i :: rest) = true -> (List.length rest < f)%nat ->
     fst (Chat.get_main_chat_id f i w) = Ok (last rest i)) /\
  (forall f i ids w, wv_up w = true -> Facts.cache_agrees w ->
     Facts.parents_closed (wv_convs w) ids = true -> In i ids ->
     fst (Chat.get_main_chat_id f i w) = OutOfFuel).
Proof.
  split; [|split; [|split; [|split; [|split; [|split]]]]].
  - intros f id w. apply Facts.never_raise_try, Facts.never_raise_ret.
  - intros f id w w1 E. unfold Chat.get_main_chat_id, try_.
    rewrite (Facts.bind_ok _ _ _ _ _ E). reflexivity.
  - intros f id w c w1 E Hp. unfold Chat.get_main_chat_id, try_.
    rewrite (Facts.bind_ok _ _ _ _ _ E). simpl. rewrite Hp. reflexivity.
  - intros f id w c p w1 w2 E Hp E2. unfold Chat.get_main_chat_id, try_.
    rewrite (Facts.bind_ok _ _ _ _ _ E). cbn [Chat.walk_parents]. rewrite Hp.
    rewrite (Facts.bind_ok _ _ _ _ _ E2). reflexivity.
  - exact Facts.main_chat_mono.
  - intros f i rest w Hup Hag Hch Hlen.
    pose proof Hch as Hch'. rewrite Facts.id_chain_cons in Hch'.
    destruct (Facts.find_conv i (wv_convs w)) as [c|] eqn:Hf; [|discriminate].
    destruct (Facts.get_conversation_agrees i w Hup Hag) as [w1 [E [U1 [C1 A1]]]].
    rewrite Hf in E. unfold Chat.get_main_chat_id, try_.
    rewrite (Facts.bind_ok _ _ _ _ _ E).
    destruct (Facts.walk_chain rest i c f w1 U1 A1) as [w' W];
      [rewrite C1; exact Hf | rewrite C1; exact Hch | exact Hlen |].
    rewrite W. reflexivity.
  - intros f i ids w Hup Hag Hcl Hi.
    pose proof Hcl as Hcl'. unfold Facts.parents_closed in Hcl'.
    rewrite forallb_forall in Hcl'. pose proof (Hcl' i Hi) as H.
    destruct (Facts.find_conv i (wv_convs w)) as [c|] eqn:Hf; [|discriminate].
    destruct (Facts.get_conversation_agrees i w Hup Hag) as [w1 [E [U1 [C1 A1]]]].
    rewrite Hf in E. unfold Chat.get_main_chat_id, try_.
    rewrite (Facts.bind_ok _ _ _ _ _ E).
    pose proof (Facts.walk_closed ids f c w1 U1 A1) as Hw.
    rewrite C1 in Hw. specialize (Hw Hcl (ex_intro _ i (conj Hi Hf))).
    destruct (Chat.walk_parents f c w1) as [[a| |] w2]; simpl in Hw;
      try discriminate Hw; reflexivity.
Qed.

(** The 70-link chain of [deep] is walked to its root with 71 units of fuel,
    and the walk from [A] on the cycle [A -> B -> A] exhausts 1000. *)
Lemma get_main_chat_id_walk_witness :
  (wv_up deep = true /\ Facts.cache_agrees deep /\
   Facts.id_chain (wv_convs deep) (xs 70 :: map xs (rev (seq 0 70))) = true /\
   fst (Chat.get_main_chat_id 71 (xs 70) deep) = Ok (xs 0)) /\
  (wv_up cyclic = true /\ Facts.cache_agrees cyclic /\
   Facts.parents_closed (wv_convs cyclic) ["A"; "B"] = true /\
   fst (Chat.get_main_chat_id 1000 "A" cyclic) = OutOfFuel).
Proof.
  destruct get_main_chat_id_walk as [_ [_ [_ [_ [_ [Hch Hcy]]]]]].
  split; (split; [reflexivity | split; [constructor | split; [vm_compute; reflexivity|]]]).
  - change (xs 0) with (last (map xs (rev (seq 0 70))) (xs 70)).
    apply Hch; [reflexivity | constructor | vm_compute; reflexivity | vm_compute; lia].
  - apply (Hcy 1000%nat "A" ["A"; "B"]);
      [reflexivity | constructor | vm_compute; reflexivity | left; reflexivity].
Defined.

End Hierarchy.

Section Keys.
Local Open Scope string_scope.

(** C6 (as the code has it).  [_hash_key] is a function of the name (equal
    names give equal keys), and the key is ["pgpt:"] followed by 12 hex
    digits: 48 bits of the SHA-256 digest, not 80. *)
Theorem hash_key_twelve_hex_digits (k : string) :
  exists ds : list Z,
    List.length ds = 12%nat /\ Forall (fun d => 0 <= d < 16) ds /\
    RedisService.hash_key k = "pgpt:" ++ string_of_list_ascii (map Sha256.hex_digit ds).
Proof.
  unfold RedisService.hash_key, Sha256.hexdigest.
  set (st := Sha256.digest _).
  unfold Sha256.hexdigest_of_state, Sha256.word_hex.
  rewrite Facts.substring_prefix, !Facts.list_ascii_app, !list_ascii_of_string_of_list_ascii.
  set (a := Sha256.ha st). set (b := Sha256.hb st).
  set (nib := fun (w : Z) (i : Z) => Z.land (Z.shiftr w (4 * (7 - i))) 15).
  exists (map (nib a) [0;1;2;3;4;5;6;7] ++ map (nib b) [0;1;2;3])%list.
  split; [reflexivity|]. split.
  - repeat constructor; apply Facts.nibble_range.
  - reflexivity.
Qed.

End Keys.

Section Edges.
Local Open Scope string_scope.

Lemma rd_set_rd w r : rd (set_rd w r) = r.
Proof. reflexivity. Qed.

Lemma bind_ret {A B} (a : A) (k : A -> M B) w : bind (ret a) k w = k a w.
Proof. reflexivity. Qed.



Lemma lookup_in k r x : Redis.lookup k r = Some x -> In (k, x) r.
Proof.
  induction r as [|[k' e'] r IH]; simpl; [discriminate|].
  destruct (String.eqb k k') eqn:E; intro H.
  - apply String.eqb_eq in E. subst. injection H. intros ->. left. reflexivity.
  - right. apply IH, H.
Qed.





End Edges.

Section Messages.

Lemma ltrim_firstn l : MsgCache.ltrim_list l 0 499 = firstn 500 l.
Proof.
  unfold MsgCache.ltrim_list.
  replace (0 <? 0) with false by reflexivity.
  replace (499 <? 0) with false by reflexivity.
  destruct l as [|x l']; [reflexivity|].
  set (n := Z.of_nat (List.length (x :: l'))).
  assert (Hn : 1 <= n) by (unfold n; cbn [List.length]; lia).
  replace (Z.min 499 (n - 1) <? 0) with false by (symmetry; apply Z.ltb_ge; lia).
  replace (n <=? 0) with false by (symmetry; apply Z.leb_gt; lia).
  cbn [orb skipn Z.to_nat].
  destruct (Z.min_spec 499 (n - 1)) as [[H1 H2]|[H1 H2]]; rewrite H2.
  - reflexivity.
  - replace (Z.to_nat (n - 1 - 0 + 1)) with (List.length (x :: l')) by (unfold n; lia).
    rewrite firstn_all, firstn_all2; [reflexivity|].
    unfold n in H1; lia.
Qed.

Lemma live_set_rd w r e : Redis.live (set_rd w r) e = Redis.live w e.
Proof. reflexivity. Qed.

Lemma lpush_step w k v r w1 :
  MsgCache.exec_op w (MsgCache.Lpush k v) = (Some r, w1) ->
  r = true /\ now w1 = now w /\
  MsgCache.cached_list w1 k = v :: MsgCache.cached_list w k.
Proof.
  unfold MsgCache.exec_op, MsgCache.cached_list.
  destruct (Redis.lookup k (rd w)) as [[v0 e]|] eqn:El.
  - destruct (Redis.live w (v0, e)) eqn:Lv.
    + destruct v0; intros H; inversion H; subst; clear H;
        rewrite ?rd_set_rd, ?Facts.lookup_put_same, ?live_set_rd;
        unfold Redis.live in *; cbn [snd] in *; try rewrite Lv;
        repeat split; reflexivity.
    + intros H; inversion H; subst; clear H.
      rewrite rd_set_rd, Facts.lookup_put_same.
      destruct v0; try rewrite Lv; repeat split; reflexivity.
  - intros H; inversion H; subst; clear H.
    rewrite rd_set_rd, Facts.lookup_put_same. repeat split; reflexivity.
Qed.

Lemma ltrim_step w k r w1 :
  MsgCache.exec_op w (MsgCache.Ltrim k 0 499) = (Some r, w1) ->
  now w1 = now w /\
  MsgCache.cached_list w1 k = firstn 500 (MsgCache.cached_list w k).
Proof.
  unfold MsgCache.exec_op, MsgCache.cached_list.
  destruct (Redis.lookup k (rd w)) as [[v0 e]|] eqn:El.
  - destruct (Redis.live w (v0, e)) eqn:Lv.
    + destruct v0; intros H; try discriminate H.
      rewrite ltrim_firstn in H.
      destruct (firstn 500 l) as [|x l'] eqn:Ef; injection H as Hr Hw; subst w1.
      * rewrite rd_set_rd, Facts.lookup_remove_same, Lv, Ef. split; reflexivity.
      * rewrite rd_set_rd, Facts.lookup_put_same, live_set_rd, Lv, Ef.
        replace (Redis.live w (RList (x :: l'), e)) with (Redis.live w (RList l, e))
          by reflexivity.
        rewrite Lv. split; reflexivity.
    + intros H; injection H as Hr Hw; subst w1.
      rewrite El. destruct v0; rewrite ?Lv; split; reflexivity.
  - intros H; injection H as Hr Hw; subst w1. rewrite El. split; reflexivity.
Qed.

Lemma expire_step w k t r w1 :
  0 < t ->
  MsgCache.exec_op w (MsgCache.Expire k t) = (Some r, w1) ->
  now w1 = now w /\
  MsgCache.cached_list w1 k = MsgCache.cached_list w k /\
  (MsgCache.cached_list w k <> [] ->
   Redis.lookup k (rd w1) = Some (RList (MsgCache.cached_list w k), Some (now w + t))).
Proof.
  intros Ht. unfold MsgCache.exec_op, MsgCache.cached_list.
  destruct (Redis.lookup k (rd w)) as [[v0 e]|] eqn:El.
  - destruct (Redis.live w (v0, e)) eqn:Lv.
    + intros H; injection H as Hr Hw; subst w1.
      rewrite rd_set_rd, Facts.lookup_put_same.
      assert (Hl : Redis.live (set_rd w (Redis.put_key k (v0, Some (now w + t)) (rd w)))
                     (v0, Some (now w + t)) = true)
        by (unfold Redis.live; cbn; apply Z.ltb_lt; lia).
      destruct v0; rewrite ?Hl, ?Lv; repeat split; try reflexivity;
        intros Hne; exfalso; apply Hne; reflexivity.
    + intros H; injection H as Hr Hw; subst w1.
      rewrite El. destruct v0; rewrite ?Lv; repeat split; try reflexivity;
        intros Hne; exfalso; apply Hne; reflexivity.
  - intros H; injection H as Hr Hw; subst w1. rewrite El.
    repeat split; intros Hne; exfalso; apply Hne; reflexivity.
Qed.

Lemma first_names_pushes seen k b rest :
  existsb (String.eqb "lpush"%string) seen = true ->
  MsgCache.first_names seen (map (MsgCache.Lpush k) b ++ rest) = MsgCache.first_names seen rest.
Proof.
  intros H. induction b as [|x b IH]; [reflexivity|].
  cbn [map app MsgCache.first_names MsgCache.op_name]. rewrite H. exact IH.
Qed.

Lemma filter_pushes k b n :
  filter (fun o => String.eqb (MsgCache.op_name o) n) (map (MsgCache.Lpush k) b) =
  if String.eqb "lpush"%string n then map (MsgCache.Lpush k) b else [].
Proof.
  induction b as [|x b IH]; cbn [map filter MsgCache.op_name];
    destruct (String.eqb "lpush"%string n); rewrite ?IH; reflexivity.
Qed.

(** The pipeline of a push: pushes first, then the trim, then the expiry. *)
Lemma group_push_trim k b a c t :
  MsgCache.group_ops (map (MsgCache.Lpush k) b ++ [MsgCache.Ltrim k a c; MsgCache.Expire k t]) =
  map (MsgCache.Lpush k) b ++ [MsgCache.Ltrim k a c; MsgCache.Expire k t].
Proof.
  unfold MsgCache.group_ops.
  assert (Hf : MsgCache.first_names [] (map (MsgCache.Lpush k) b ++
                 [MsgCache.Ltrim k a c; MsgCache.Expire k t]) =
               (match b with [] => [] | _ => ["lpush"%string] end ++
                ["ltrim"%string; "expire"%string])%list).
  { destruct b as [|x b]; [reflexivity|].
    cbn [map app MsgCache.first_names MsgCache.op_name existsb].
    rewrite first_names_pushes by reflexivity. reflexivity. }
  rewrite Hf. destruct b as [|x b]; cbn [flat_map app]; rewrite ?filter_app, ?filter_pushes;
    cbn [String.eqb Ascii.eqb Bool.eqb andb filter MsgCache.op_name app];
    rewrite ?app_nil_r; reflexivity.
Qed.

Lemma exec_all_app w xs ys :
  MsgCache.exec_all w (xs ++ ys) =
  let (r1, w1) := MsgCache.exec_all w xs in
  let (r2, w2) := MsgCache.exec_all w1 ys in (r1 ++ r2, w2).
Proof.
  revert w. induction xs as [|o xs IH]; intros w; cbn [app MsgCache.exec_all].
  - destruct (MsgCache.exec_all w ys); reflexivity.
  - destruct (MsgCache.exec_op w o) as [r w1].
    rewrite IH. destruct (MsgCache.exec_all w1 xs) as [r1 w2].
    destruct (MsgCache.exec_all w2 ys) as [r2 w3]. reflexivity.
Qed.

Lemma pushes_step w k b rs w1 :
  MsgCache.exec_all w (map (MsgCache.Lpush k) b) = (rs, w1) ->
  forallb Facts.is_some rs = true ->
  now w1 = now w /\ MsgCache.cached_list w1 k = (rev b ++ MsgCache.cached_list w k)%list.
Proof.
  revert w rs. induction b as [|x b IH]; intros w rs H Hs.
  - injection H as <- <-. split; reflexivity.
  - cbn [map MsgCache.exec_all] in H.
    destruct (MsgCache.exec_op w (MsgCache.Lpush k x)) as [o w2] eqn:E1.
    destruct (MsgCache.exec_all w2 (map (MsgCache.Lpush k) b)) as [rs2 w3] eqn:E2.
    injection H as <- <-.
    destruct o as [o|]; [|discriminate Hs].
    apply lpush_step in E1 as (_ & N1 & C1).
    destruct (IH w2 rs2 E2 Hs) as [N2 C2].
    split; [congruence|]. rewrite C2, C1. cbn [rev]. rewrite <- app_assoc. reflexivity.
Qed.

(** A successful pipeline [pushes; LTRIM 0 499; EXPIRE ttl] on one key. *)
Lemma push_trim_expire w k b rs w' :
  MsgCache.exec_all w (map (MsgCache.Lpush k) b ++
    [MsgCache.Ltrim k 0 499; MsgCache.Expire k RedisService.conversation_ttl]) = (rs, w') ->
  forallb Facts.is_some rs = true ->
  MsgCache.cached_list w' k = firstn 500 (rev b ++ MsgCache.cached_list w k) /\
  (MsgCache.cached_list w' k <> [] ->
   Redis.lookup k (rd w') =
   Some (RList (MsgCache.cached_list w' k), Some (now w + RedisService.conversation_ttl))).
Proof.
  intros H Hs. rewrite exec_all_app in H.
  destruct (MsgCache.exec_all w (map (MsgCache.Lpush k) b)) as [r1 w1] eqn:E0.
  cbn [MsgCache.exec_all] in H.
  destruct (MsgCache.exec_op w1 (MsgCache.Ltrim k 0 499)) as [o1 w2] eqn:E1.
  destruct (MsgCache.exec_op w2 (MsgCache.Expire k RedisService.conversation_ttl))
    as [o2 w3] eqn:E2.
  injection H as <- <-.
  rewrite forallb_app in Hs. apply andb_prop in Hs as [Hs1 Hs2].
  destruct o1 as [o1|]; [|discriminate Hs2].
  destruct o2 as [o2|]; [|cbn in Hs2; discriminate Hs2].
  destruct (pushes_step _ _ _ _ _ E0 Hs1) as [N1 C1].
  apply ltrim_step in E1 as [N2 C2].
  apply expire_step in E2 as (N3 & C3 & L3); [|unfold RedisService.conversation_ttl; lia].
  rewrite C3, C2, C1. split; [reflexivity|].
  intros Hne. rewrite <- C1, <- C2, L3 by (rewrite C2, C1; exact Hne).
  rewrite N2, N1. reflexivity.
Qed.

Lemma pipeline_ok ops w r w' :
  ops <> [] ->
  MsgCache.pipeline_operation ops w = (Ok (Some r), w') ->
  exists rs, MsgCache.exec_all w (MsgCache.group_ops ops) = (rs, w') /\
             forallb Facts.is_some rs = true.
Proof.
  intros Hne H. destruct ops as [|o ops]; [contradiction|].
  unfold MsgCache.pipeline_operation, RedisService.handled, try_, bind, Redis.guard,
    get_w, put_w in H.
  destruct (rd_up w); [|discriminate H].
  destruct (MsgCache.exec_all w (MsgCache.group_ops (o :: ops))) as [rs w2] eqn:E.
  exists rs. fold Facts.is_some in H.
  destruct (forallb Facts.is_some rs) eqn:F; [|discriminate H].
  injection H as _ <-. split; reflexivity.
Qed.

Lemma handled_ok {A} (m : M (option A)) w a w' :
  RedisService.handled m w = (Ok (Some a), w') -> m w = (Ok (Some a), w').
Proof.
  unfold RedisService.handled, try_, ret.
  destruct (m w) as [[x| |] w1]; intros H; [exact H|discriminate H|discriminate H].
Qed.

Lemma store_batches_trim k bs w w' :
  bs <> [] ->
  MsgCache.store_batches k bs w = (Ok (Some true), w') ->
  (List.length (MsgCache.cached_list w' k) <= 500)%nat.
Proof.
  revert w. induction bs as [|b bs IH]; intros w Hne H; [contradiction|].
  cbn [MsgCache.store_batches] in H. unfold bind in H.
  destruct (MsgCache.pipeline_operation
              (map (MsgCache.Lpush k) b ++
               [MsgCache.Ltrim k 0 (RedisService.max_messages_per_conversation - 1);
                MsgCache.Expire k RedisService.conversation_ttl]) w)
    as [[[[|r0 res]|]| |] w1] eqn:Ep; try discriminate H;
    try (cbv [ret] in H; congruence).
  destruct bs as [|b' bs'].
  - cbn [MsgCache.store_batches] in H. cbv [ret] in H. injection H as <-.
    apply pipeline_ok in Ep as (rs & E & Hs);
      [|intros Hc; apply app_eq_nil in Hc as [_ Hc]; discriminate Hc].
    rewrite group_push_trim in E.
    apply push_trim_expire in E as [C _]; [|exact Hs].
    rewrite C. apply firstn_le_length.
  - apply (IH w1); [discriminate|exact H].
Qed.

Lemma batches_nonempty {A} fuel n (l : list A) :
  (0 < fuel)%nat -> l <> [] -> MsgCache.batches fuel n l <> [].
Proof.
  intros Hf Hl. destruct fuel as [|f]; [lia|].
  destruct l as [|x l]; [contradiction|]. discriminate.
Qed.

(** C10: a [store_message] that returns [True] leaves, at the conversation's
    key, the list [data :: old] cut to its first 500 entries (the oldest
    entries beyond the cap are dropped) with a fresh 7-day expiry, so at most
    500 entries; a [store_messages_batch] of a non-empty list that returns
    [True] also leaves at most 500 entries there (every batch pipeline ends
    with [LTRIM 0 499]). *)
Theorem store_message_trimmed :
  (forall user_id conversation_id data w w',
     MsgCache.store_message user_id conversation_id data w = (Ok (Some true), w') ->
     let k := RedisService.get_conversation_key user_id conversation_id in
     MsgCache.cached_list w' k = firstn 500 (data :: MsgCache.cached_list w k) /\
     Redis.lookup k (rd w') =
       Some (RList (MsgCache.cached_list w' k),
             Some (now w + RedisService.conversation_ttl)) /\
     (List.length (MsgCache.cached_list w' k) <= 500)%nat) /\
  (forall user_id conversation_id datas w w',
     datas <> [] ->
     MsgCache.store_messages_batch user_id conversation_id datas w = (Ok (Some true), w') ->
     (List.length (MsgCache.cached_list w'
        (RedisService.get_conversation_key user_id conversation_id)) <= 500)%nat).
Proof.
  split.
  - intros u c d w w' H. apply handled_ok in H. cbv beta zeta in H |- *.
    set (k := RedisService.get_conversation_key u c) in *. unfold bind in H.
    destruct (MsgCache.pipeline_operation
                [MsgCache.Lpush k d;
                 MsgCache.Ltrim k 0 (RedisService.max_messages_per_conversation - 1);
                 MsgCache.Expire k RedisService.conversation_ttl] w)
      as [[[res|]| |] w1] eqn:Ep; cbv [ret] in H; try discriminate H.
    injection H as _ <-.
    apply pipeline_ok in Ep as (rs & E & Hs); [|discriminate].
    change [MsgCache.Lpush k d;
            MsgCache.Ltrim k 0 (RedisService.max_messages_per_conversation - 1);
            MsgCache.Expire k RedisService.conversation_ttl]
      with (map (MsgCache.Lpush k) [d] ++
            [MsgCache.Ltrim k 0 499; MsgCache.Expire k RedisService.conversation_ttl])%list
      in E.
    rewrite group_push_trim in E.
    apply push_trim_expire in E as [C L]; [|exact Hs].
    cbn [rev app] in C.
    split; [exact C|]. split.
    + apply L. rewrite C. discriminate.
    + rewrite C. apply firstn_le_length.
  - intros u c ds w w' Hne H. apply handled_ok in H.
    destruct ds as [|x ds]; [contradiction|].
    eapply store_batches_trim; [|exact H].
    apply batches_nonempty; [cbn; lia|discriminate].
Qed.

(** A store on a list already holding 500 entries succeeds, keeps 500 and
    puts the new message first. *)
Lemma store_message_trimmed_witness :
  let k := RedisService.get_conversation_key "U"%string "M"%string in
  let p := MsgCache.store_message "U"%string "M"%string "new"%string Scenarios.full_cache in
  fst p = Ok (Some true) /\
  MsgCache.cached_list (snd p) k = "new"%string :: repeat "old"%string 499 /\
  (List.length (MsgCache.cached_list (snd p) k) <= 500)%nat.
Proof.
  intros k p.
  assert (Hp : MsgCache.store_message "U"%string "M"%string "new"%string Scenarios.full_cache =
               (Ok (Some true), snd p)) by (vm_compute; reflexivity).
  destruct store_message_trimmed as [Hs _].
  destruct (Hs "U"%string "M"%string "new"%string Scenarios.full_cache (snd p) Hp) as (C & _ & L).
  split; [|split].
  - exact (f_equal fst Hp).
  - fold k in C. rewrite C. vm_compute. reflexivity.
  - exact L.
Defined.

End Messages.

Section Ordering.

Lemma key_le_total a b : Context.key_le a b = false -> Context.key_le b a = true.
Proof.
  destruct a as [x|], b as [y|]; cbn; try discriminate.
  intros H. destruct (String.leb_total x y) as [H1|H1]; [congruence|exact H1].
Qed.

Lemma insert_hdrel y x l :
  HdRel Facts.ts_le y l -> Facts.ts_le y x -> HdRel Facts.ts_le y (Context.insert x l).
Proof.
  intros Hh Hyx. destruct l as [|z l]; cbn [Context.insert].
  - constructor. exact Hyx.
  - destruct (Context.key_le (Context.cts x) (Context.cts z)).
    + constructor. exact Hyx.
    + inversion Hh; subst. constructor. assumption.
Qed.

Lemma insert_sorted x l :
  Sorted Facts.ts_le l -> Sorted Facts.ts_le (Context.insert x l).
Proof.
  induction l as [|y l IH]; intros H; cbn [Context.insert].
  - repeat constructor.
  - destruct (Context.key_le (Context.cts x) (Context.cts y)) eqn:E.
    + constructor; [exact H|constructor; exact E].
    + inversion H; subst. constructor; [apply IH; assumption|].
      apply insert_hdrel; [assumption|]. apply key_le_total. exact E.
Qed.

Lemma isort_sorted l : Sorted Facts.ts_le (Context.isort l).
Proof.
  induction l as [|x l IH]; cbn [Context.isort]; [constructor|].
  apply insert_sorted. exact IH.
Qed.

Lemma insert_perm x l : Permutation (x :: l) (Context.insert x l).
Proof.
  induction l as [|y l IH]; cbn [Context.insert]; [reflexivity|].
  destruct (Context.key_le (Context.cts x) (Context.cts y)); [reflexivity|].
  transitivity (y :: x :: l); [apply perm_swap|]. apply perm_skip. exact IH.
Qed.

Lemma isort_perm l : Permutation l (Context.isort l).
Proof.
  induction l as [|x l IH]; cbn [Context.isort]; [reflexivity|].
  transitivity (x :: Context.isort l); [apply perm_skip; exact IH|]. apply insert_perm.
Qed.

(** [insert] only passes over strictly earlier candidates, so it never
    reorders two candidates of the same timestamp. *)
Lemma insert_stable t x l :
  filter (fun c => Facts.ts_eqb (Context.cts c) t) (Context.insert x l) =
  filter (fun c => Facts.ts_eqb (Context.cts c) t) (x :: l).
Proof.
  induction l as [|y l IH]; cbn [Context.insert]; [reflexivity|].
  destruct (Context.key_le (Context.cts x) (Context.cts y)) eqn:E; [reflexivity|].
  cbn [filter] in *. rewrite IH.
  destruct (Facts.ts_eqb (Context.cts x) t) eqn:Ex,
           (Facts.ts_eqb (Context.cts y) t) eqn:Ey; try reflexivity.
  exfalso. destruct (Context.cts x) as [a|], (Context.cts y) as [b|], t as [c|];
    cbn in E, Ex, Ey; try discriminate.
  apply String.eqb_eq in Ex, Ey. subst.
  destruct (String.leb_total c c) as [H|H]; congruence.
Qed.

Lemma isort_stable t l :
  filter (fun c => Facts.ts_eqb (Context.cts c) t) (Context.isort l) =
  filter (fun c => Facts.ts_eqb (Context.cts c) t) l.
Proof.
  induction l as [|x l IH]; cbn [Context.isort]; [reflexivity|].
  rewrite insert_stable. cbn [filter]. rewrite IH. reflexivity.
Qed.

Lemma slice_from_suffix {A} (xs : list A) i : exists pre, xs = pre ++ Py.slice_from xs i.
Proof.
  unfold Py.slice_from. eexists. symmetry. apply firstn_skipn.
Qed.

Lemma finish_suffix inherit limit msgs r :
  Context.finish inherit limit msgs = Some r ->
  exists pre, Context.sort_ts msgs = Some (Context.isort msgs) /\
              map Context.strip (Context.isort msgs) = pre ++ r.
Proof.
  unfold Context.finish, Context.sort_ts.
  destruct (_ && _); [discriminate|]. intros H. injection H as <-.
  set (ctx := map Context.strip (Context.isort msgs)).
  assert (Hs : forall i, exists pre, ctx = pre ++ Py.slice_from ctx i)
    by (intros i; apply slice_from_suffix).
  assert (Hn : exists pre, ctx = pre ++ ctx) by (exists []; reflexivity).
  destruct inherit; cbv zeta; unfold Py.last_k;
    repeat match goal with |- context [if ?b then _ else _] => destruct b end;
    first [ destruct Hn as [pre Hp]; exists pre; split; [reflexivity|exact Hp]
          | destruct (Hs (- limit)) as [pre Hp]; exists pre; split; [reflexivity|exact Hp]
          | destruct (Hs (- Z.min (Z.of_nat (List.length ctx)) (limit * 2))) as [pre Hp];
            exists pre; split; [reflexivity|exact Hp] ].
Qed.

(** C4: whenever [get_conversation_context] returns a non-empty list, it is
    the tail of the gathered candidates sorted by [list.sort] on their
    timestamps: the sorted list is in non-decreasing timestamp order, is a
    permutation of the candidates, and keeps candidates of equal timestamp in
    their insertion order. *)
Theorem get_context_sorted_stable id limit include_all w r w' :
  Context.get_conversation_context id limit include_all w = (Ok r, w') ->
  r = [] \/
  exists inherit msgs pre,
    fst (Context.gather id limit include_all w) = Ok (Some (inherit, msgs)) /\
    Context.sort_ts msgs = Some (Context.isort msgs) /\
    map Context.strip (Context.isort msgs) = pre ++ r /\
    Sorted Facts.ts_le (Context.isort msgs) /\
    Permutation msgs (Context.isort msgs) /\
    (forall t, filter (fun c => Facts.ts_eqb (Context.cts c) t) (Context.isort msgs) =
               filter (fun c => Facts.ts_eqb (Context.cts c) t) msgs).
Proof.
  unfold Context.get_conversation_context, try_, bind. cbv beta.
  destruct (Context.gather id limit include_all w) as [[g| |] w1] eqn:Eg.
  - destruct g as [[inh msgs]|].
    + destruct (Context.finish inh limit msgs) as [r0|] eqn:Ef.
      * cbv [ret]. intros H. injection H as <- _. right.
        destruct (finish_suffix _ _ _ _ Ef) as (pre & Hs & Hm).
        exists inh, msgs, pre.
        split; [reflexivity|]. split; [exact Hs|]. split; [exact Hm|].
        split; [apply isort_sorted|]. split; [apply isort_perm|].
        intros t. apply isort_stable.
      * cbv [raise ret]. intros H. injection H as <- _. left. reflexivity.
    + cbv [ret]. intros H. injection H as <- _. left. reflexivity.
  - cbv [ret]. intros H. injection H as <- _. left. reflexivity.
  - discriminate.
Qed.

(** Getting the context of [M] with its sub-chats on [ties]: the sub-chat's
    earlier [b] comes first, and [a] stays before [c], both of 10:00:05. *)
Lemma get_context_sorted_stable_witness :
  let p := Context.get_conversation_context "M"%string 10 true Scenarios.ties in
  fst p = Ok [("user", "b"); ("user", "a"); ("assistant", "c")]%string /\
  ([("user", "b"); ("user", "a"); ("assistant", "c")]%string = [] \/
   exists inherit msgs pre,
    fst (Context.gather "M"%string 10 true Scenarios.ties) = Ok (Some (inherit, msgs)) /\
    Context.sort_ts msgs = Some (Context.isort msgs) /\
    map Context.strip (Context.isort msgs) =
      pre ++ [("user", "b"); ("user", "a"); ("assistant", "c")]%string /\
    Sorted Facts.ts_le (Context.isort msgs) /\
    Permutation msgs (Context.isort msgs) /\
    (forall t, filter (fun c => Facts.ts_eqb (Context.cts c) t) (Context.isort msgs) =
               filter (fun c => Facts.ts_eqb (Context.cts c) t) msgs)).
Proof.
  intros p.
  assert (Hp : Context.get_conversation_context "M"%string 10 true Scenarios.ties =
               (Ok [("user", "b"); ("user", "a"); ("assistant", "c")]%string, snd p))
    by (vm_compute; reflexivity).
  split; [exact (f_equal fst Hp)|].
  exact (get_context_sorted_stable _ _ _ _ _ _ Hp).
Defined.

End Ordering.

Section LocalCache.




End LocalCache.

(** * Further properties of the code *)

(** ** The local conversation cache ([_cache_conversation]) *)
Section CacheBound.

Lemma dict_set_absent {V} k (v : V) l :
  Chat.dict_get k l = None -> Chat.dict_set k v l = l ++ [(k, v)].
Proof.
  induction l as [|[k' v'] l IH]; cbn [Chat.dict_get Chat.dict_set app]; [reflexivity|].
  destruct (String.eqb k k'); [discriminate|]. intro H. rewrite IH by exact H. reflexivity.
Qed.

Lemma dict_set_present_keys {V} k (v : V) l :
  Chat.dict_get k l <> None -> map fst (Chat.dict_set k v l) = map fst l.
Proof.
  induction l as [|[k' v'] l IH]; cbn [Chat.dict_get Chat.dict_set]; [contradiction|].
  destruct (String.eqb k k') eqn:E; intro H; cbn [map fst].
  - apply String.eqb_eq in E. subst. reflexivity.
  - rewrite IH by exact H. reflexivity.
Qed.

Lemma dict_get_set {V} k (v : V) l : Chat.dict_get k (Chat.dict_set k v l) = Some v.
Proof.
  induction l as [|[k' v'] l IH]; cbn [Chat.dict_set].
  - cbn. rewrite String.eqb_refl. reflexivity.
  - destruct (String.eqb k k') eqn:E; cbn [Chat.dict_get].
    + rewrite String.eqb_refl. reflexivity.
    + rewrite E. exact IH.
Qed.

Lemma dict_get_app_absent {V} k (v : V) l :
  Chat.dict_get k l = None -> Chat.dict_get k (l ++ [(k, v)]) = Some v.
Proof.
  intro H. rewrite <- dict_set_absent by exact H. apply dict_get_set.
Qed.

Lemma dict_get_tl {V} k (l : list (string * V)) :
  Chat.dict_get k l = None -> Chat.dict_get k (tl l) = None.
Proof.
  destruct l as [|[k' v'] l]; cbn [tl Chat.dict_get]; [reflexivity|].
  destruct (String.eqb k k'); [discriminate|exact (fun H => H)].
Qed.

Lemma cache_conversation_eq c w :
  Chat.cache_conversation c w = (Ok tt, set_lc w (Facts.lc_insert c (lc w))).
Proof. reflexivity. Qed.

(** Inserting into a local cache of at most 100 entries. *)
Lemma lc_insert_bounded c l :
  (List.length l <= 100)%nat ->
  (List.length (Facts.lc_insert c l) <= 100)%nat /\
  Chat.dict_get (cid c) (Facts.lc_insert c l) = Some c.
Proof.
  intros Hl. unfold Facts.lc_insert.
  destruct (Chat.dict_get (cid c) l) as [c0|] eqn:G.
  - assert (Hk : map fst (Chat.dict_set (cid c) c l) = map fst l)
      by (apply dict_set_present_keys; rewrite G; discriminate).
    assert (Hn : List.length (Chat.dict_set (cid c) c l) = List.length l)
      by (rewrite <- (length_map fst), Hk, length_map; reflexivity).
    replace (100 <? List.length (Chat.dict_set (cid c) c l))%nat with false
      by (symmetry; apply Nat.ltb_ge; lia).
    split; [lia|]. apply dict_get_set.
  - rewrite (dict_set_absent _ _ _ G), length_app. cbn [List.length].
    destruct (100 <? List.length l + 1)%nat eqn:E.
    + apply Nat.ltb_lt in E.
      destruct l as [|x l'] eqn:El; [cbn in E; lia|].
      cbn [app tl]. cbn [List.length] in Hl, E. rewrite length_app. cbn [List.length].
      split; [lia|].
      apply dict_get_app_absent. exact (dict_get_tl (cid c) (x :: l') G).
    + apply Nat.ltb_ge in E. rewrite length_app. cbn [List.length].
      split; [lia|]. apply dict_get_app_absent. exact G.
Qed.

(** X1: with at most 100 entries in the local cache, [_cache_conversation]
    keeps at most 100 entries, and [_get_cached_conversation] then returns
    the conversation just cached. *)
Theorem cache_conversation_bounded c w :
  (List.length (lc w) <= 100)%nat ->
  let w' := snd (Chat.cache_conversation c w) in
  (List.length (lc w') <= 100)%nat /\
  Chat.get_cached_conversation (cid c) w' = (Ok (Some c), w').
Proof.
  intros Hl w'. unfold w'. rewrite cache_conversation_eq. cbn [snd].
  unfold Chat.get_cached_conversation, bind, get_w, ret. cbn [lc set_lc].
  destruct (lc_insert_bounded c (lc w) Hl) as [H1 H2].
  rewrite H2. split; [exact H1|reflexivity].
Qed.

(** A cache of 100 conversations [x], [xx], ... *)
Lemma cache_conversation_bounded_witness :
  let w := mkWorld 0 true [] [] true []
             (map (fun i => (Scenarios.xs i, mkConv (Scenarios.xs i) "U" "t" None false))
                  (seq 0 100)) in
  let c := mkConv "new" "U" "t" None false in
  (List.length (lc w) <= 100)%nat /\
  (List.length (lc (snd (Chat.cache_conversation c w))) <= 100)%nat /\
  Chat.get_cached_conversation (cid c) (snd (Chat.cache_conversation c w)) =
    (Ok (Some c), snd (Chat.cache_conversation c w)).
Proof.
  intros w c.
  assert (H : (List.length (lc w) <= 100)%nat) by (vm_compute; lia).
  split; [exact H|]. exact (cache_conversation_bounded c w H).
Defined.

(** X2: when the local cache holds 100 conversations and the id being cached
    is not among them, the entry cached first is dropped and the new one is
    added last. *)
Theorem cache_conversation_evicts_oldest c w :
  Chat.dict_get (cid c) (lc w) = None ->
  List.length (lc w) = 100%nat ->
  lc (snd (Chat.cache_conversation c w)) = tl (lc w) ++ [(cid c, c)].
Proof.
  intros G Hl. rewrite cache_conversation_eq. cbn [snd lc set_lc].
  unfold Facts.lc_insert. rewrite (dict_set_absent _ _ _ G), length_app, Hl.
  cbn [List.length Nat.add Nat.ltb Nat.leb].
  destruct (lc w) as [|x l]; [discriminate Hl|]. reflexivity.
Qed.

Lemma cache_conversation_evicts_oldest_witness :
  let w := mkWorld 0 true [] [] true []
             (map (fun i => (Scenarios.xs i, mkConv (Scenarios.xs i) "U" "t" None false))
                  (seq 0 100)) in
  let c := mkConv "new" "U" "t" None false in
  Chat.dict_get (cid c) (lc w) = None /\ List.length (lc w) = 100%nat /\
  lc (snd (Chat.cache_conversation c w)) = tl (lc w) ++ [(cid c, c)].
Proof.
  intros w c.
  assert (G : Chat.dict_get (cid c) (lc w) = None) by (vm_compute; reflexivity).
  assert (H : List.length (lc w) = 100%nat) by (vm_compute; reflexivity).
  split; [exact G|]. split; [exact H|]. exact (cache_conversation_evicts_oldest c w G H).
Defined.

End CacheBound.

(** ** Cached message lists: [get_conversation_history] and its writers *)
Section History.

Variable deserialize : string -> Json.json.

Lemma get_entry_eq k w : rd_up w = true ->
  Redis.get_entry k w =
  (Ok (match Redis.lookup k (rd w) with
       | Some e => if Redis.live w e then Some e else None
       | None => None end), w).
Proof. intro H. cbv [Redis.get_entry Redis.guard bind get_w ret]. rewrite H. reflexivity. Qed.

Lemma ltrim_nil a b : MsgCache.ltrim_list [] a b = [].
Proof.
  unfold MsgCache.ltrim_list. cbn [List.length Z.of_nat].
  destruct (a <? 0) eqn:E; [rewrite Z.add_0_l|];
    replace (0 <=? _) with true by (symmetry; apply Z.leb_le; lia);
    rewrite orb_true_r; reflexivity.
Qed.

Lemma lrange_eq k a b w :
  rd_up w = true -> Reads.list_or_absent w k ->
  Reads.lrange k a b w = (Ok (MsgCache.ltrim_list (MsgCache.cached_list w k) a b), w).
Proof.
  intros Hu Hl. unfold Reads.lrange, bind. rewrite get_entry_eq by exact Hu.
  unfold MsgCache.cached_list.
  destruct (Redis.lookup k (rd w)) as [[v e]|] eqn:El.
  - destruct (Redis.live w (v, e)) eqn:Lv.
    + destruct (Hl v e El Lv) as [l ->]. rewrite Lv. reflexivity.
    + destruct v; try (rewrite Lv); cbv [ret]; rewrite ltrim_nil; reflexivity.
  - cbv [ret]. rewrite ltrim_nil. reflexivity.
Qed.

(** [LRANGE 0 (m - 1)] for [m >= 1]: the first [m] entries. *)
Lemma ltrim_prefix l m : 1 <= m ->
  MsgCache.ltrim_list l 0 (m - 1) = firstn (Z.to_nat m) l.
Proof.
  intro Hm. unfold MsgCache.ltrim_list.
  replace (0 <? 0) with false by reflexivity.
  replace (m - 1 <? 0) with false by (symmetry; apply Z.ltb_ge; lia).
  destruct l as [|x l']; [destruct (_ || _); rewrite ?skipn_nil, !firstn_nil; reflexivity|].
  set (n := Z.of_nat (List.length (x :: l'))).
  assert (Hn : 1 <= n) by (unfold n; cbn [List.length]; lia).
  replace (Z.min (m - 1) (n - 1) <? 0) with false by (symmetry; apply Z.ltb_ge; lia).
  replace (n <=? 0) with false by (symmetry; apply Z.leb_gt; lia).
  cbn [orb skipn Z.to_nat].
  destruct (Z.min_spec (m - 1) (n - 1)) as [[H1 H2]|[H1 H2]]; rewrite H2.
  - f_equal. lia.
  - replace (Z.to_nat (n - 1 - 0 + 1)) with (List.length (x :: l')) by (unfold n; lia).
    rewrite firstn_all, firstn_all2; [reflexivity|]. unfold n in H1. lia.
Qed.

(** [LRANGE 0 (m - 1)] for [m <= 0]: all entries but the last [- m]. *)
Lemma ltrim_nonpos l m : m <= 0 ->
  MsgCache.ltrim_list l 0 (m - 1) =
  firstn (Z.to_nat (Z.of_nat (List.length l) + m)) l.
Proof.
  intro Hm. unfold MsgCache.ltrim_list.
  replace (0 <? 0) with false by reflexivity.
  replace (m - 1 <? 0) with true by (symmetry; apply Z.ltb_lt; lia).
  set (n := Z.of_nat (List.length l)).
  destruct (Z.ltb_spec (n + (m - 1)) 0) as [H|H].
  - cbn [orb]. replace (Z.to_nat (n + m)) with O by lia. reflexivity.
  - replace (n <=? 0) with false by (symmetry; apply Z.leb_gt; lia).
    cbn [orb skipn Z.to_nat]. f_equal. lia.
Qed.

Lemma history_eq u c limit w :
  rd_up w = true ->
  Reads.list_or_absent w (RedisService.get_conversation_key u c) ->
  Reads.get_conversation_history deserialize u c limit w =
  (Ok (Some (rev (Reads.messages_of deserialize
        (MsgCache.ltrim_list (MsgCache.cached_list w (RedisService.get_conversation_key u c))
           0 (Z.min limit RedisService.max_messages_per_conversation - 1))))), w).
Proof.
  intros Hu Hl. unfold Reads.get_conversation_history, RedisService.handled, try_.
  cbv beta zeta. unfold bind at 1. rewrite lrange_eq by assumption.
  destruct (MsgCache.ltrim_list _ _ _); reflexivity.
Qed.

(** X3: when Redis is reachable and the conversation's key holds a list (or
    nothing), [get_conversation_history] with [limit >= 1] returns the
    [min(limit, 500)] most recent entries, oldest first, keeping those that
    decode to a non-empty dict, and changes nothing. *)
Theorem history_window u c limit w :
  rd_up w = true ->
  Reads.list_or_absent w (RedisService.get_conversation_key u c) ->
  1 <= limit ->
  Reads.get_conversation_history deserialize u c limit w =
  (Ok (Some (rev (Reads.messages_of deserialize
        (firstn (Z.to_nat (Z.min limit 500))
           (MsgCache.cached_list w (RedisService.get_conversation_key u c)))))), w).
Proof.
  intros Hu Hl Hm. rewrite history_eq by assumption.
  rewrite ltrim_prefix by (unfold RedisService.max_messages_per_conversation; lia).
  reflexivity.
Qed.

(** X4: a [limit] of 0 or below is not capped at 500: [limit = 0] returns
    every cached entry (the slice [0 .. -1]), and [limit = -j] all of them but
    the [j] oldest. *)
Theorem history_nonpositive_limit u c limit w :
  rd_up w = true ->
  Reads.list_or_absent w (RedisService.get_conversation_key u c) ->
  limit <= 0 ->
  let l := MsgCache.cached_list w (RedisService.get_conversation_key u c) in
  Reads.get_conversation_history deserialize u c limit w =
  (Ok (Some (rev (Reads.messages_of deserialize
        (firstn (Z.to_nat (Z.of_nat (List.length l) + limit)) l)))), w).
Proof.
  intros Hu Hl Hm l. rewrite history_eq by assumption.
  replace (Z.min limit RedisService.max_messages_per_conversation) with limit
    by (unfold RedisService.max_messages_per_conversation; lia).
  rewrite ltrim_nonpos by exact Hm. reflexivity.
Qed.

(** X5: when Redis is unreachable, or the conversation's key holds a value
    that is not a list, [get_conversation_history] returns [None] (not an
    empty list) and changes nothing. *)
Theorem history_failure u c limit w :
  let k := RedisService.get_conversation_key u c in
  (rd_up w = false \/
   exists v e, Redis.lookup k (rd w) = Some (v, e) /\ Redis.live w (v, e) = true /\
               forall l, v <> RList l) ->
  Reads.get_conversation_history deserialize u c limit w = (Ok None, w).
Proof.
  intros k H. unfold Reads.get_conversation_history, RedisService.handled, try_.
  cbv beta zeta. fold k. unfold Reads.lrange, Redis.get_entry, Redis.guard, bind, get_w.
  destruct H as [Hd|(v & e & El & Lv & Hv)].
  - rewrite Hd. reflexivity.
  - destruct (rd_up w); [|reflexivity]. rewrite El, Lv.
    destruct v; try reflexivity. exfalso. exact (Hv l eq_refl).
Qed.


Lemma exec_all_flags w ops :
  rd_up (snd (MsgCache.exec_all w ops)) = rd_up w /\
  now (snd (MsgCache.exec_all w ops)) = now w.
Proof.
  revert w. induction ops as [|o ops IH]; intro w; cbn [MsgCache.exec_all]; [split; reflexivity|].
  assert (Ho : rd_up (snd (MsgCache.exec_op w o)) = rd_up w /\
               now (snd (MsgCache.exec_op w o)) = now w).
  { unfold MsgCache.exec_op.
    destruct o as [k v|k a b|k t]; destruct (Redis.lookup k (rd w)) as [[v0 e]|];
      try destruct (Redis.live w (v0, e)); try destruct v0;
      try destruct (MsgCache.ltrim_list _ _ _); split; reflexivity. }
  destruct (MsgCache.exec_op w o) as [r w1]. cbn [snd] in Ho.
  destruct (IH w1) as [IH1 IH2].
  destruct (MsgCache.exec_all w1 ops) as [rs w2]. cbn in *. destruct Ho. split; congruence.
Qed.

Lemma pipeline_guard ops w r w' :
  ops <> [] -> MsgCache.pipeline_operation ops w = (Ok (Some r), w') -> rd_up w = true.
Proof.
  intros Hne H. destruct ops as [|o ops]; [contradiction|].
  unfold MsgCache.pipeline_operation, RedisService.handled, try_, bind, Redis.guard in H.
  destruct (rd_up w); [reflexivity|discriminate H].
Qed.

(** What a [store_message] returning [True] did. *)
Lemma store_message_effect u c d w w' :
  MsgCache.store_message u c d w = (Ok (Some true), w') ->
  let k := RedisService.get_conversation_key u c in
  MsgCache.cached_list w' k = firstn 500 (d :: MsgCache.cached_list w k) /\
  Redis.lookup k (rd w') =
    Some (RList (MsgCache.cached_list w' k), Some (now w + RedisService.conversation_ttl)) /\
  rd_up w = true /\ rd_up w' = true /\ now w' = now w.
Proof.
  intros H k. apply handled_ok in H. cbv beta zeta in H. fold k in H. unfold bind in H.
  destruct (MsgCache.pipeline_operation
              [MsgCache.Lpush k d;
               MsgCache.Ltrim k 0 (RedisService.max_messages_per_conversation - 1);
               MsgCache.Expire k RedisService.conversation_ttl] w)
    as [[[res|]| |] w1] eqn:Ep; cbv [ret] in H; try discriminate H.
  injection H as _ <-.
  assert (Hu : rd_up w = true) by (eapply pipeline_guard; [|exact Ep]; discriminate).
  apply pipeline_ok in Ep as (rs & E & Hs); [|discriminate].
  change [MsgCache.Lpush k d;
          MsgCache.Ltrim k 0 (RedisService.max_messages_per_conversation - 1);
          MsgCache.Expire k RedisService.conversation_ttl]
    with (map (MsgCache.Lpush k) [d] ++
          [MsgCache.Ltrim k 0 499; MsgCache.Expire k RedisService.conversation_ttl])%list
    in E.
  rewrite group_push_trim in E.
  pose proof (exec_all_flags w (map (MsgCache.Lpush k) [d] ++
          [MsgCache.Ltrim k 0 499; MsgCache.Expire k RedisService.conversation_ttl])) as Hf.
  rewrite E in Hf. cbn [snd] in Hf. destruct Hf as [F1 F2].
  apply push_trim_expire in E as [C L]; [|exact Hs].
  cbn [rev app] in C.
  split; [exact C|]. split; [apply L; rewrite C; discriminate|].
  split; [exact Hu|]. split; [congruence|exact F2].
Qed.

Lemma firstn_firstn_le {A} m n (l : list A) :
  (m <= n)%nat -> firstn m (firstn n l) = firstn m l.
Proof. intro H. rewrite firstn_firstn. f_equal. lia. Qed.

Lemma as_message_rev j :
  rev (Reads.as_message j) = Reads.as_message j.
Proof. destruct j as [| | | | |kv]; try reflexivity. destruct kv; reflexivity. Qed.

Lemma messages_of_app l1 l2 :
  Reads.messages_of deserialize (l1 ++ l2) =
  Reads.messages_of deserialize l1 ++ Reads.messages_of deserialize l2.
Proof. apply flat_map_app. Qed.

Lemma messages_of_rev l :
  Reads.messages_of deserialize (rev l) = rev (Reads.messages_of deserialize l).
Proof.
  induction l as [|x l IH]; [reflexivity|].
  cbn [rev]. rewrite messages_of_app, IH.
  change (Reads.messages_of deserialize (x :: l))
    with (Reads.as_message (deserialize x) ++ Reads.messages_of deserialize l).
  change (Reads.messages_of deserialize [x]) with (Reads.as_message (deserialize x) ++ []).
  rewrite app_nil_r, rev_app_distr, as_message_rev. reflexivity.
Qed.

Lemma list_or_absent_of k w l t :
  Redis.lookup k (rd w) = Some (RList l, t) -> Reads.list_or_absent w k.
Proof. intros E v e H _. rewrite E in H. injection H as <- _. eauto. Qed.

(** X6: after a [store_message] that returned [True], the conversation's
    history ([limit >= 1]) ends with the stored message (when it decodes to a
    non-empty dict), preceded by the [min(limit, 500) - 1] most recent
    earlier entries. *)
Theorem store_then_history u c d limit w w' :
  MsgCache.store_message u c d w = (Ok (Some true), w') ->
  1 <= limit ->
  let k := RedisService.get_conversation_key u c in
  Reads.get_conversation_history deserialize u c limit w' =
  (Ok (Some (rev (Reads.messages_of deserialize
                   (firstn (Z.to_nat (Z.min limit 500) - 1) (MsgCache.cached_list w k))) ++
             Reads.as_message (deserialize d))), w').
Proof.
  intros H Hm k.
  destruct (store_message_effect u c d w w' H) as (C & L & _ & Hu' & _).
  fold k in C, L.
  rewrite history_window by (try exact Hu'; try exact Hm; exact (list_or_absent_of k w' _ _ L)).
  fold k. rewrite C, firstn_firstn_le by lia.
  destruct (Z.to_nat (Z.min limit 500)) as [|m] eqn:Em; [lia|].
  cbn [firstn]. replace (S m - 1)%nat with m by lia.
  unfold Reads.messages_of at 1. cbn [flat_map]. fold (Reads.messages_of deserialize).
  rewrite rev_app_distr, as_message_rev. reflexivity.
Qed.

Lemma exec_op_lpush_some w k v :
  Reads.list_or_absent w k -> exists w1, MsgCache.exec_op w (MsgCache.Lpush k v) = (Some true, w1).
Proof.
  intro Hl. unfold MsgCache.exec_op.
  destruct (Redis.lookup k (rd w)) as [[v0 e]|] eqn:El; [|eauto].
  destruct (Redis.live w (v0, e)) eqn:Lv; [|eauto].
  destruct (Hl v0 e El Lv) as [l ->]. eauto.
Qed.

Lemma exec_op_ltrim_some w k l e :
  Redis.lookup k (rd w) = Some (RList l, e) -> Redis.live w (RList l, e) = true ->
  exists w1, MsgCache.exec_op w (MsgCache.Ltrim k 0 499) = (Some true, w1).
Proof.
  intros El Lv. unfold MsgCache.exec_op. rewrite El, Lv.
  destruct (MsgCache.ltrim_list l 0 499); eauto.
Qed.

Lemma exec_op_expire_some w k l e t :
  Redis.lookup k (rd w) = Some (RList l, e) -> Redis.live w (RList l, e) = true ->
  exists w1, MsgCache.exec_op w (MsgCache.Expire k t) = (Some true, w1).
Proof. intros El Lv. unfold MsgCache.exec_op. rewrite El, Lv. eauto. Qed.

Lemma live_list_of w k :
  MsgCache.cached_list w k <> [] ->
  exists e, Redis.lookup k (rd w) = Some (RList (MsgCache.cached_list w k), e) /\
            Redis.live w (RList (MsgCache.cached_list w k), e) = true.
Proof.
  unfold MsgCache.cached_list.
  destruct (Redis.lookup k (rd w)) as [[v e]|]; [|contradiction].
  destruct v; try contradiction. destruct (Redis.live w (RList l, e)) eqn:Lv; [|contradiction].
  intros _. eauto.
Qed.

(** A [store_message] on a reachable Redis whose key holds a list (or
    nothing) returns [True]. *)
Lemma store_message_runs u c d w :
  let k := RedisService.get_conversation_key u c in
  rd_up w = true -> Reads.list_or_absent w k ->
  exists w1, MsgCache.store_message u c d w = (Ok (Some true), w1) /\
             MsgCache.cached_list w1 k = firstn 500 (d :: MsgCache.cached_list w k) /\
             rd_up w1 = true /\ Reads.list_or_absent w1 k.
Proof.
  intros k Hu Hl.
  assert (Hrun : exists w3,
             MsgCache.exec_all w [MsgCache.Lpush k d; MsgCache.Ltrim k 0 499;
                                  MsgCache.Expire k RedisService.conversation_ttl] =
             ([Some true; Some true; Some true], w3)).
  { cbn [MsgCache.exec_all].
    destruct (exec_op_lpush_some w k d Hl) as [w1 E1]. rewrite E1.
    pose proof (lpush_step _ _ _ _ _ E1) as (_ & _ & C1).
    destruct (live_list_of w1 k) as (e1 & El1 & Lv1); [rewrite C1; discriminate|].
    destruct (exec_op_ltrim_some _ _ _ _ El1 Lv1) as [w2 E2]. rewrite E2.
    pose proof (ltrim_step _ _ _ _ E2) as (_ & C2).
    destruct (live_list_of w2 k) as (e2 & El2 & Lv2);
      [rewrite C2, C1; discriminate|].
    destruct (exec_op_expire_some _ _ _ _ RedisService.conversation_ttl El2 Lv2) as [w3 E3].
    rewrite E3. eauto. }
  destruct Hrun as [w3 E].
  assert (Hs : MsgCache.store_message u c d w = (Ok (Some true), w3)).
  { pose proof (group_push_trim k [d] 0 (RedisService.max_messages_per_conversation - 1)
                  RedisService.conversation_ttl) as G. cbn [map app] in G.
    cbv [MsgCache.store_message RedisService.handled try_ bind MsgCache.pipeline_operation
         Redis.guard get_w put_w ret raise]. fold k. rewrite Hu, G.
    change (RedisService.max_messages_per_conversation - 1) with 499. rewrite E. reflexivity. }
  exists w3. destruct (store_message_effect u c d w w3 Hs) as (C & L & _ & Hu' & _).
  fold k in C, L. split; [exact Hs|]. split; [exact C|]. split; [exact Hu'|].
  exact (list_or_absent_of k w3 _ _ L).
Qed.

Lemma firstn_app_firstn {A} n (a b : list A) :
  firstn n (a ++ firstn n b) = firstn n (a ++ b).
Proof.
  rewrite !firstn_app, firstn_firstn. f_equal. f_equal. lia.
Qed.

Lemma for_store u c ds w :
  let k := RedisService.get_conversation_key u c in
  rd_up w = true -> Reads.list_or_absent w k ->
  exists w', for_ ds (fun d => MsgCache.store_message u c d ;;; ret tt) w = (Ok tt, w') /\
             firstn 500 (MsgCache.cached_list w' k) =
               firstn 500 (rev ds ++ MsgCache.cached_list w k) /\
             rd_up w' = true /\ Reads.list_or_absent w' k.
Proof.
  intros k. subst k. revert w. induction ds as [|d ds IH]; intros w Hu Hl.
  - exists w. split; [reflexivity|]. split; [reflexivity|]. split; assumption.
  - destruct (store_message_runs u c d w Hu Hl) as (w1 & E1 & C1 & Hu1 & Hl1).
    destruct (IH w1 Hu1 Hl1) as (w2 & E2 & C2 & Hu2 & Hl2).
    exists w2. cbn [for_]. unfold bind at 1. unfold bind at 1. rewrite E1.
    cbv [ret]. split; [exact E2|]. split; [|split; assumption].
    rewrite C2, C1. rewrite firstn_app_firstn. cbn [rev]. rewrite <- app_assoc. reflexivity.
Qed.

Lemma concat_batches {A} fuel n (l : list A) :
  (0 < n)%nat -> (List.length l <= fuel)%nat -> List.concat (MsgCache.batches fuel n l) = l.
Proof.
  revert l. induction fuel as [|f IH]; intros l Hn Hl.
  - destruct l; [reflexivity|cbn in Hl; lia].
  - destruct l as [|x l']; [reflexivity|].
    cbn [MsgCache.batches List.concat]. rewrite IH; [apply firstn_skipn|exact Hn|].
    rewrite length_skipn. cbn [List.length] in *. lia.
Qed.

Lemma for_batches u c bs w :
  let k := RedisService.get_conversation_key u c in
  rd_up w = true -> Reads.list_or_absent w k ->
  exists w', for_ bs (fun batch =>
               for_ batch (fun d => MsgCache.store_message u c d ;;; ret tt)) w = (Ok tt, w') /\
             firstn 500 (MsgCache.cached_list w' k) =
               firstn 500 (rev (List.concat bs) ++ MsgCache.cached_list w k) /\
             rd_up w' = true /\ Reads.list_or_absent w' k.
Proof.
  intros k. subst k. revert w. induction bs as [|b bs IH]; intros w Hu Hl.
  - exists w. split; [reflexivity|]. split; [reflexivity|]. split; assumption.
  - destruct (for_store u c b w Hu Hl) as (w1 & E1 & C1 & Hu1 & Hl1).
    destruct (IH w1 Hu1 Hl1) as (w2 & E2 & C2 & Hu2 & Hl2).
    exists w2. cbn [for_]. unfold bind at 1. rewrite E1.
    split; [exact E2|]. split; [|split; assumption].
    rewrite C2, <- firstn_app_firstn, C1, firstn_app_firstn.
    cbn [List.concat]. rewrite rev_app_distr, <- app_assoc. reflexivity.
Qed.

(** X7: when Redis is reachable and the conversation's key holds a list (or
    nothing), after [_cache_messages_async] of [n <= min(limit, 500)]
    messages (oldest first) the history ([limit >= 1]) ends with those
    messages in the order they were given, preceded by the most recent
    [min(limit, 500) - n] earlier entries. *)
Theorem cache_messages_then_history u c datas limit w :
  let k := RedisService.get_conversation_key u c in
  rd_up w = true -> Reads.list_or_absent w k -> 1 <= limit ->
  (List.length datas <= Z.to_nat (Z.min limit 500))%nat ->
  let w' := snd (Reads.cache_messages_async u c datas w) in
  Reads.get_conversation_history deserialize u c limit w' =
  (Ok (Some (rev (Reads.messages_of deserialize
                   (firstn (Z.to_nat (Z.min limit 500) - List.length datas)
                      (MsgCache.cached_list w k))) ++
             Reads.messages_of deserialize datas)), w').
Proof.
  intros k Hu Hl Hm Hn w'. subst k.
  destruct (for_batches u c (MsgCache.batches (List.length datas) Reads.batch_size datas) w Hu Hl)
    as (w1 & E & C & Hu1 & Hl1).
  assert (Hw : w' = w1).
  { unfold w', Reads.cache_messages_async, try_. rewrite E. reflexivity. }
  rewrite Hw. clear w' Hw.
  rewrite concat_batches in C by (unfold Reads.batch_size; lia).
  rewrite history_window by assumption.
  set (m := Z.to_nat (Z.min limit 500)) in *.
  assert (Hm500 : (m <= 500)%nat) by (unfold m; lia).
  rewrite <- (firstn_firstn_le m 500) by exact Hm500.
  rewrite C, firstn_firstn_le by exact Hm500.
  rewrite firstn_app, length_rev, firstn_all2 by (rewrite length_rev; exact Hn).
  rewrite messages_of_app, rev_app_distr, messages_of_rev, rev_involutive.
  reflexivity.
Qed.

End History.

Section HistoryWitnesses.

(** A decoder that reads every text as [{"content": text}]. *)
Lemma history_window_witness :
  let d := fun s => Json.JObj [("content"%string, Json.JStr s)] in
  let k := RedisService.get_conversation_key "U" "M" in
  rd_up Scenarios.full_cache = true /\ Reads.list_or_absent Scenarios.full_cache k /\
  1 <= 3 /\
  Reads.get_conversation_history d "U" "M" 3 Scenarios.full_cache =
  (Ok (Some (rev (Reads.messages_of d
        (firstn (Z.to_nat (Z.min 3 500)) (MsgCache.cached_list Scenarios.full_cache k))))),
   Scenarios.full_cache).
Proof.
  intros d k.
  assert (H1 : rd_up Scenarios.full_cache = true) by reflexivity.
  assert (H2 : Reads.list_or_absent Scenarios.full_cache k)
    by (apply (list_or_absent_of k _ (repeat "old"%string 500) None); vm_compute; reflexivity).
  assert (H3 : 1 <= 3) by lia.
  split; [exact H1|]. split; [exact H2|]. split; [exact H3|].
  exact (history_window d "U" "M" 3 _ H1 H2 H3).
Defined.

(** 600 cached entries: [limit = 0] returns all 600. *)
Lemma history_nonpositive_limit_witness :
  let d := fun s => Json.JObj [("content"%string, Json.JStr s)] in
  let k := RedisService.get_conversation_key "U" "M" in
  let w := mkWorld 0 true [] [] true [(k, (RList (repeat "m"%string 600), None))] [] in
  rd_up w = true /\ Reads.list_or_absent w k /\ 0 <= 0 /\
  Reads.get_conversation_history d "U" "M" 0 w =
  (Ok (Some (rev (Reads.messages_of d
        (firstn (Z.to_nat (Z.of_nat (List.length (MsgCache.cached_list w k)) + 0))
                (MsgCache.cached_list w k))))), w) /\
  match fst (Reads.get_conversation_history d "U" "M" 0 w) with
  | Ok (Some r) => List.length r = 600%nat
  | _ => False
  end.
Proof.
  intros d k w.
  assert (H1 : rd_up w = true) by reflexivity.
  assert (H2 : Reads.list_or_absent w k)
    by (apply (list_or_absent_of k _ (repeat "m"%string 600) None); vm_compute; reflexivity).
  assert (H3 : 0 <= 0) by lia.
  split; [exact H1|]. split; [exact H2|]. split; [exact H3|].
  split; [exact (history_nonpositive_limit d "U" "M" 0 w H1 H2 H3)|].
  vm_compute. reflexivity.
Defined.

Lemma history_failure_witness :
  let d := fun s => Json.JObj [("content"%string, Json.JStr s)] in
  rd_up Scenarios.tree_down = false /\
  Reads.get_conversation_history d "U" "M" 10 Scenarios.tree_down = (Ok None, Scenarios.tree_down).
Proof.
  intros d. assert (H : rd_up Scenarios.tree_down = false) by reflexivity.
  split; [exact H|]. exact (history_failure d "U" "M" 10 _ (or_introl H)).
Defined.

(** A store on the full list, then a history of 2: the newest old entry,
    then the new message. *)
Lemma store_then_history_witness :
  let d := fun s => Json.JObj [("content"%string, Json.JStr s)] in
  let p := MsgCache.store_message "U" "M" "new" Scenarios.full_cache in
  MsgCache.store_message "U" "M" "new" Scenarios.full_cache = (Ok (Some true), snd p) /\
  1 <= 2 /\
  Reads.get_conversation_history d "U" "M" 2 (snd p) =
  (Ok (Some (rev (Reads.messages_of d
                   (firstn (Z.to_nat (Z.min 2 500) - 1)
                      (MsgCache.cached_list Scenarios.full_cache
                         (RedisService.get_conversation_key "U" "M")))) ++
             Reads.as_message (d "new"%string))), snd p) /\
  fst (Reads.get_conversation_history d "U" "M" 2 (snd p)) =
    Ok (Some [[("content"%string, Json.JStr "old")]; [("content"%string, Json.JStr "new")]]).
Proof.
  intros d p.
  assert (Hp : MsgCache.store_message "U" "M" "new" Scenarios.full_cache = (Ok (Some true), snd p))
    by (vm_compute; reflexivity).
  assert (H2 : 1 <= 2) by lia.
  pose proof (store_then_history d "U" "M" "new" 2 _ _ Hp H2) as E.
  split; [exact Hp|]. split; [exact H2|]. split; [exact E|].
  rewrite E. vm_compute. reflexivity.
Defined.

(** Three messages cached into an empty store come back in order. *)
Lemma cache_messages_then_history_witness :
  let d := fun s => Json.JObj [("content"%string, Json.JStr s)] in
  let w := Scenarios.empty_at 0 in
  let k := RedisService.get_conversation_key "U" "M" in
  let datas := ["a"; "b"; "c"]%string in
  let w' := snd (Reads.cache_messages_async "U" "M" datas w) in
  rd_up w = true /\ Reads.list_or_absent w k /\ 1 <= 10 /\
  (List.length datas <= Z.to_nat (Z.min 10 500))%nat /\
  Reads.get_conversation_history d "U" "M" 10 w' =
  (Ok (Some (rev (Reads.messages_of d
                   (firstn (Z.to_nat (Z.min 10 500) - List.length datas)
                      (MsgCache.cached_list w k))) ++
             Reads.messages_of d datas)), w') /\
  fst (Reads.get_conversation_history d "U" "M" 10 w') =
    Ok (Some [[("content"%string, Json.JStr "a")]; [("content"%string, Json.JStr "b")];
              [("content"%string, Json.JStr "c")]]).
Proof.
  intros d w k datas w'.
  assert (H1 : rd_up w = true) by reflexivity.
  assert (H2 : Reads.list_or_absent w k) by (intros v e H; vm_compute in H; discriminate H).
  assert (H3 : 1 <= 10) by lia.
  assert (H4 : (List.length datas <= Z.to_nat (Z.min 10 500))%nat) by (vm_compute; lia).
  pose proof (cache_messages_then_history d "U" "M" datas 10 w H1 H2 H3 H4) as E.
  split; [exact H1|]. split; [exact H2|]. split; [exact H3|]. split; [exact H4|].
  split; [exact E|]. vm_compute. reflexivity.
Defined.

End HistoryWitnesses.

(** ** The main-chat context list and share tokens *)
Section ContextTokens.

Variable deserialize : string -> Json.json.
Variable dumps : rvalue -> string.

Lemma exec_op_flags w o :
  rd_up (snd (MsgCache.exec_op w o)) = rd_up w /\ now (snd (MsgCache.exec_op w o)) = now w.
Proof.
  unfold MsgCache.exec_op.
  destruct o as [k v|k a b|k t]; destruct (Redis.lookup k (rd w)) as [[v0 e]|];
    try destruct (Redis.live w (v0, e)); try destruct v0;
    try destruct (MsgCache.ltrim_list _ _ _); split; reflexivity.
Qed.

Lemma command_eq o w : rd_up w = true ->
  Reads.command o w =
  match MsgCache.exec_op w o with
  | (Some b, w') => (Ok b, w')
  | (None, _) => (Raise, w)
  end.
Proof.
  intro Hu. unfold Reads.command, bind, Redis.guard, get_w. rewrite Hu.
  destruct (MsgCache.exec_op w o) as [[b|] w'] eqn:E; [reflexivity|].
  unfold MsgCache.exec_op in E.
  destruct o as [k v|k a b|k t]; destruct (Redis.lookup k (rd w)) as [[v0 e]|];
    try destruct (Redis.live w (v0, e)); try destruct v0;
    try destruct (MsgCache.ltrim_list _ _ _); try discriminate E;
    injection E as <-; reflexivity.
Qed.

Lemma exec_op_ltrim_any w k l e a b :
  Redis.lookup k (rd w) = Some (RList l, e) -> Redis.live w (RList l, e) = true ->
  exists w1, MsgCache.exec_op w (MsgCache.Ltrim k a b) = (Some true, w1).
Proof.
  intros El Lv. unfold MsgCache.exec_op. rewrite El, Lv.
  destruct (MsgCache.ltrim_list l a b); eauto.
Qed.

(** [LTRIM k 0 (m - 1)] for [m >= 1] keeps the first [m] entries. *)
Lemma ltrim_step_prefix w k m r w1 :
  1 <= m ->
  MsgCache.exec_op w (MsgCache.Ltrim k 0 (m - 1)) = (Some r, w1) ->
  MsgCache.cached_list w1 k = firstn (Z.to_nat m) (MsgCache.cached_list w k).
Proof.
  intro Hm. unfold MsgCache.exec_op, MsgCache.cached_list.
  destruct (Redis.lookup k (rd w)) as [[v0 e]|] eqn:El.
  - destruct (Redis.live w (v0, e)) eqn:Lv.
    + destruct v0; intros H; try discriminate H.
      rewrite (ltrim_prefix l m Hm) in H.
      destruct (firstn (Z.to_nat m) l) as [|x l'] eqn:Ef; injection H as Hr Hw; subst w1.
      * rewrite rd_set_rd, Facts.lookup_remove_same, Lv, Ef. reflexivity.
      * rewrite rd_set_rd, Facts.lookup_put_same, live_set_rd, Lv, Ef.
        replace (Redis.live w (RList (x :: l'), e)) with (Redis.live w (RList l, e))
          by reflexivity.
        rewrite Lv. reflexivity.
    + intros H; injection H as Hr Hw; subst w1.
      rewrite El. destruct v0; rewrite ?Lv, ?firstn_nil; reflexivity.
  - intros H; injection H as Hr Hw; subst w1. rewrite El, firstn_nil. reflexivity.
Qed.

(** What [store_main_chat_context] does on a reachable Redis whose key holds
    a list (or nothing). *)
Lemma store_context_runs id data w :
  let k := Reads.context_key id in
  rd_up w = true -> Reads.list_or_absent w k ->
  exists w', Reads.store_main_chat_context id data w = (Ok true, w') /\
    MsgCache.cached_list w' k = firstn 100 (data :: MsgCache.cached_list w k) /\
    Redis.lookup k (rd w') =
      Some (RList (MsgCache.cached_list w' k), Some (now w + RedisService.conversation_ttl)) /\
    rd_up w' = true.
Proof.
  intros k Hu Hl.
  destruct (exec_op_lpush_some w k data Hl) as [w1 E1].
  pose proof (lpush_step _ _ _ _ _ E1) as (_ & N1 & C1).
  pose proof (exec_op_flags w (MsgCache.Lpush k data)) as [U1 _]. rewrite E1 in U1.
  cbn [snd] in U1.
  destruct (live_list_of w1 k) as (e1 & El1 & Lv1); [rewrite C1; discriminate|].
  destruct (exec_op_ltrim_any _ _ _ _ 0 99 El1 Lv1) as [w2 E2].
  pose proof (ltrim_step_prefix w1 k 100 true w2 ltac:(lia) E2) as C2.
  pose proof (exec_op_flags w1 (MsgCache.Ltrim k 0 99)) as [U2 N2]. rewrite E2 in U2, N2.
  cbn [snd] in U2, N2.
  destruct (live_list_of w2 k) as (e2 & El2 & Lv2); [rewrite C2, C1; discriminate|].
  destruct (exec_op_expire_some _ _ _ _ RedisService.conversation_ttl El2 Lv2) as [w3 E3].
  pose proof (expire_step _ _ _ _ _ (eq_refl : 0 < RedisService.conversation_ttl) E3)
    as (N3 & C3 & L3).
  pose proof (exec_op_flags w2 (MsgCache.Expire k RedisService.conversation_ttl)) as [U3 _].
  rewrite E3 in U3. cbn [snd] in U3.
  exists w3.
  assert (Hs : Reads.store_main_chat_context id data w = (Ok true, w3)).
  { unfold Reads.store_main_chat_context, try_. cbv zeta. fold k. unfold bind.
    rewrite (command_eq _ w Hu), E1.
    rewrite (command_eq _ w1 ltac:(congruence)), E2.
    rewrite (command_eq _ w2 ltac:(congruence)), E3. reflexivity. }
  split; [exact Hs|].
  assert (C : MsgCache.cached_list w3 k = firstn 100 (data :: MsgCache.cached_list w k))
    by (rewrite C3, C2, C1; reflexivity).
  split; [exact C|]. split; [|congruence].
  rewrite L3 by (rewrite C2, C1; discriminate). rewrite C3, N2, N1. reflexivity.
Qed.

(** X8: when Redis is reachable and the main chat's context key holds a list
    (or nothing), [store_main_chat_context] returns [True] and leaves there
    the new message first, followed by at most 99 of the earlier entries, with
    a fresh 7-day expiry. *)
Theorem store_main_chat_context_trims id data w :
  let k := Reads.context_key id in
  rd_up w = true -> Reads.list_or_absent w k ->
  exists w', Reads.store_main_chat_context id data w = (Ok true, w') /\
    MsgCache.cached_list w' k = data :: firstn 99 (MsgCache.cached_list w k) /\
    Redis.lookup k (rd w') =
      Some (RList (MsgCache.cached_list w' k), Some (now w + RedisService.conversation_ttl)).
Proof.
  intros k Hu Hl. destruct (store_context_runs id data w Hu Hl) as (w' & E & C & L & _).
  exists w'. split; [exact E|]. split; [exact C|exact L].
Qed.

(** X9: on the same conditions, reading the main chat's context with
    [limit >= 1] right after [store_main_chat_context] gives the
    [min(limit, 100) - 1] most recent earlier entries, oldest first, then the
    new message (each kept when its decoded value is truthy). *)
Theorem main_chat_context_round_trip id data limit w :
  let k := Reads.context_key id in
  rd_up w = true -> Reads.list_or_absent w k -> 1 <= limit ->
  let w' := snd (Reads.store_main_chat_context id data w) in
  Reads.get_main_chat_context deserialize id limit w' =
  (Ok (rev (filter Json.truthy (map deserialize
         (firstn (Z.to_nat (Z.min limit 100) - 1) (MsgCache.cached_list w k)))) ++
       filter Json.truthy [deserialize data]), w').
Proof.
  intros k Hu Hl Hm w'.
  destruct (store_context_runs id data w Hu Hl) as (w1 & E & C & L & Hu1).
  fold k in C, L.
  assert (Hw : w' = w1) by (unfold w'; rewrite E; reflexivity).
  rewrite Hw. clear w' Hw.
  unfold Reads.get_main_chat_context, try_, bind. fold k.
  rewrite lrange_eq by (try exact Hu1; exact (list_or_absent_of k w1 _ _ L)).
  rewrite ltrim_prefix by exact Hm. rewrite C, firstn_firstn.
  replace (Nat.min (Z.to_nat limit) 100) with (Z.to_nat (Z.min limit 100)) by lia.
  destruct (Z.to_nat (Z.min limit 100)) as [|n] eqn:En; [lia|].
  cbn [firstn map]. replace (S n - 1)%nat with n by lia.
  change (deserialize data :: map deserialize (firstn n (MsgCache.cached_list w k)))
    with ([deserialize data] ++ map deserialize (firstn n (MsgCache.cached_list w k))).
  rewrite filter_app, rev_app_distr.
  replace (rev (filter Json.truthy [deserialize data])) with (filter Json.truthy [deserialize data])
    by (cbn [filter]; destruct (Json.truthy (deserialize data)); reflexivity).
  reflexivity.
Qed.

(** X10: when Redis is unreachable, or the context key holds a value that is
    not a list, [store_main_chat_context] returns [False] and writes nothing,
    and [get_main_chat_context] returns an empty list. *)
Theorem main_chat_context_failure id data limit w :
  let k := Reads.context_key id in
  (rd_up w = false \/
   exists v e, Redis.lookup k (rd w) = Some (v, e) /\ Redis.live w (v, e) = true /\
               forall l, v <> RList l) ->
  Reads.store_main_chat_context id data w = (Ok false, w) /\
  Reads.get_main_chat_context deserialize id limit w = (Ok [], w).
Proof.
  intros k H. destruct H as [Hd|(v & e & El & Lv & Hv)].
  - split; cbv [Reads.store_main_chat_context Reads.get_main_chat_context try_ bind
                Reads.command Reads.lrange Redis.get_entry Redis.guard get_w ret raise];
      rewrite Hd; reflexivity.
  - assert (Hlv : Redis.live w (v, e) = true) by exact Lv.
    split.
    + unfold Reads.store_main_chat_context, try_. cbv zeta. fold k.
      unfold bind at 1. unfold Reads.command, bind at 1, Redis.guard.
      destruct (rd_up w) eqn:Hu; [|reflexivity].
      unfold bind, get_w, MsgCache.exec_op. rewrite El, Lv.
      destruct v; try reflexivity. exfalso. exact (Hv l eq_refl).
    + unfold Reads.get_main_chat_context, try_. fold k.
      unfold Reads.lrange, Redis.get_entry, Redis.guard, bind, get_w.
      destruct (rd_up w); [|reflexivity]. rewrite El, Lv.
      destruct v; try reflexivity. exfalso. exact (Hv l eq_refl).
Qed.

Lemma get_share_eq t w :
  rd_up w = true ->
  Reads.get_share_token_data deserialize dumps t w =
  (Ok (match Redis.lookup (Reads.share_key t) (rd w) with
       | Some (v, e) =>
           if Redis.live w (v, e) then
             match v with
             | RList _ => Json.JNull
             | v =>
                 let s := match v with RStr s => s | v => dumps v end in
                 if String.eqb s "" then Json.JNull
                 else if Nat.even (String.length s) then Json.JNull
                 else if Json.truthy (deserialize s)
                 then match deserialize s with Json.JStr s' => deserialize s' | _ => Json.JNull end
                 else Json.JNull
             end
           else Json.JNull
       | None => Json.JNull
       end), w).
Proof.
  intro Hu. unfold Reads.get_share_token_data, Reads.get_reply, try_, bind.
  rewrite get_entry_eq by exact Hu.
  destruct (Redis.lookup (Reads.share_key t) (rd w)) as [[v e]|]; [|reflexivity].
  destruct (Redis.live w (v, e)); [|reflexivity].
  destruct v; cbv [ret raise]; try reflexivity;
    destruct (String.eqb _ _); try reflexivity;
    destruct (Nat.even _); try reflexivity;
    destruct (Json.truthy _); try reflexivity;
    unfold Reads.deserialize_again; destruct (deserialize _); reflexivity.
Qed.

(** X11: on a reachable Redis, [store_share_token] returns [True], yet the
    token never reads back: when the stored text decodes to a dict or a list
    (what [_serialize_data] makes of the token dict), every later
    [get_share_token_data] returns [None].  The GET callback has already
    decoded the text (or raised on an even-length one), and the second
    [_deserialize_data] raises on the decoded value. *)
Theorem share_token_round_trip t data w dt :
  rd_up w = true -> (forall s, deserialize data <> Json.JStr s) ->
  let w1 := snd (Reads.store_share_token t data w) in
  fst (Reads.store_share_token t data w) = Ok true /\
  fst (Reads.get_share_token_data deserialize dumps t (Scenarios.tick w1 dt)) = Ok Json.JNull.
Proof.
  intros Hu Hd w1.
  assert (Hs : Reads.store_share_token t data w =
               (Ok true, set_rd w (Redis.put_key (Reads.share_key t)
                                     (RStr data, Some (now w + Reads.share_ttl)) (rd w)))).
  { unfold Reads.store_share_token, try_, bind. rewrite Facts.setex_eq by exact Hu.
    reflexivity. }
  unfold w1. rewrite Hs. cbn [fst snd]. split; [reflexivity|].
  rewrite get_share_eq by exact Hu.
  cbn [fst Scenarios.tick set_rd rd now]. rewrite Facts.lookup_put_same.
  destruct (Redis.live _ _); [|reflexivity].
  destruct (String.eqb data ""); [reflexivity|].
  destruct (Nat.even _); [reflexivity|].
  destruct (Json.truthy _); [|reflexivity].
  destruct (deserialize data) eqn:E; try reflexivity.
  exfalso. exact (Hd s eq_refl).
Qed.

(** X12: on a reachable Redis, [delete_share_token] returns whether the token
    was live, and the token then reads as [None]. *)
Theorem share_token_delete t w :
  rd_up w = true ->
  let r := Reads.delete_share_token t w in
  fst r = Ok (match Facts.live_value (Reads.share_key t) w with Some _ => true | None => false end) /\
  Reads.get_share_token_data deserialize dumps t (snd r) = (Ok Json.JNull, snd r).
Proof.
  intros Hu r.
  assert (Hr : r = (Ok (match Facts.live_value (Reads.share_key t) w with
                        | Some _ => true | None => false end),
                    set_rd (set_rd w (Redis.remove_key (Reads.share_key t) (rd w)))
                           (Redis.remove_key (Reads.share_key t) (rd w)))).
  { unfold r. cbv [Reads.delete_share_token Redis.delete Redis.delete_one Redis.get_entry
                   Redis.guard try_ bind get_w put_w ret].
    rewrite Hu. cbn [rd_up set_rd]. rewrite Hu. unfold Facts.live_value.
    destruct (Redis.lookup (Reads.share_key t) (rd w)) as [e|]; [|reflexivity].
    destruct (Redis.live w e); reflexivity. }
  rewrite Hr. cbn [fst snd]. split; [reflexivity|].
  rewrite get_share_eq by exact Hu. cbn [rd set_rd].
  rewrite Facts.lookup_remove_same. reflexivity.
Qed.

End ContextTokens.

Section ContextTokenWitnesses.

(** A context list of 100 entries: the store keeps the new one and 99 old. *)
Lemma store_main_chat_context_trims_witness :
  let k := Reads.context_key "M" in
  let w := mkWorld 0 true [] [] true [(k, (RList (repeat "old"%string 100), None))] [] in
  rd_up w = true /\ Reads.list_or_absent w k /\
  (exists w', Reads.store_main_chat_context "M" "new" w = (Ok true, w') /\
    MsgCache.cached_list w' k = "new"%string :: firstn 99 (MsgCache.cached_list w k) /\
    Redis.lookup k (rd w') =
      Some (RList (MsgCache.cached_list w' k), Some (now w + RedisService.conversation_ttl))) /\
  MsgCache.cached_list (snd (Reads.store_main_chat_context "M" "new" w)) k =
  "new"%string :: repeat "old"%string 99.
Proof.
  intros k w.
  assert (H1 : rd_up w = true) by reflexivity.
  assert (H2 : Reads.list_or_absent w k)
    by (apply (list_or_absent_of k _ (repeat "old"%string 100) None); vm_compute; reflexivity).
  split; [exact H1|]. split; [exact H2|].
  split; [exact (store_main_chat_context_trims "M" "new" w H1 H2)|].
  vm_compute. reflexivity.
Defined.

(** A decoder that reads ["skip"] as [None]: it is dropped from the result. *)
Lemma main_chat_context_round_trip_witness :
  let d := fun s => if String.eqb s "skip" then Json.JNull else Json.JStr s in
  let k := Reads.context_key "M" in
  let w := mkWorld 0 true [] [] true [(k, (RList ["c3"; "skip"; "c1"]%string, None))] [] in
  rd_up w = true /\ Reads.list_or_absent w k /\ 1 <= 3 /\
  Reads.get_main_chat_context d "M" 3 (snd (Reads.store_main_chat_context "M" "new" w)) =
  (Ok (rev (filter Json.truthy (map d
         (firstn (Z.to_nat (Z.min 3 100) - 1) (MsgCache.cached_list w k)))) ++
       filter Json.truthy [d "new"%string]),
   snd (Reads.store_main_chat_context "M" "new" w)) /\
  fst (Reads.get_main_chat_context d "M" 3 (snd (Reads.store_main_chat_context "M" "new" w))) =
  Ok [Json.JStr "c3"; Json.JStr "new"].
Proof.
  intros d k w.
  assert (H1 : rd_up w = true) by reflexivity.
  assert (H2 : Reads.list_or_absent w k)
    by (apply (list_or_absent_of k _ ["c3"; "skip"; "c1"]%string None); vm_compute; reflexivity).
  assert (H3 : 1 <= 3) by lia.
  split; [exact H1|]. split; [exact H2|]. split; [exact H3|].
  split; [exact (main_chat_context_round_trip d "M" "new" 3 w H1 H2 H3)|].
  vm_compute. reflexivity.
Defined.

(** The context key holds a string: nothing is stored, nothing is read. *)
Lemma main_chat_context_failure_witness :
  let k := Reads.context_key "M" in
  let w := mkWorld 0 true [] [] true [(k, (RStr "x", None))] [] in
  (rd_up w = false \/
   exists v e, Redis.lookup k (rd w) = Some (v, e) /\ Redis.live w (v, e) = true /\
               forall l, v <> RList l) /\
  Reads.store_main_chat_context "M" "new" w = (Ok false, w) /\
  Reads.get_main_chat_context (fun s => Json.JStr s) "M" 5 w = (Ok [], w).
Proof.
  intros k w.
  assert (H : rd_up w = false \/
              exists v e, Redis.lookup k (rd w) = Some (v, e) /\ Redis.live w (v, e) = true /\
                          forall l, v <> RList l).
  { right. exists (RStr "x"), None. split; [vm_compute; reflexivity|].
    split; [reflexivity|]. intros l; discriminate. }
  split; [exact H|]. exact (main_chat_context_failure (fun s => Json.JStr s) "M" "new" 5 w H).
Defined.

(** A token whose text [[1]] decodes to a list, read one hour after it was
    stored. *)
Lemma share_token_round_trip_witness :
  let d := fun _ : string => Json.JList [Json.JNum 1] in
  let dm := fun _ : rvalue => "x"%string in
  let w1 := snd (Reads.store_share_token "T" "[1]" (Scenarios.empty_at 0)) in
  rd_up (Scenarios.empty_at 0) = true /\ (forall s, d "[1]"%string <> Json.JStr s) /\
  fst (Reads.store_share_token "T" "[1]" (Scenarios.empty_at 0)) = Ok true /\
  fst (Reads.get_share_token_data d dm "T" (Scenarios.tick w1 3600)) = Ok Json.JNull.
Proof.
  intros d dm w1.
  assert (H1 : rd_up (Scenarios.empty_at 0) = true) by reflexivity.
  assert (H2 : forall s, d "[1]"%string <> Json.JStr s) by (intros s; discriminate).
  split; [exact H1|]. split; [exact H2|].
  exact (share_token_round_trip d dm "T" "[1]" (Scenarios.empty_at 0) 3600 H1 H2).
Defined.

(** Deleting a stored token reports [True]; a second delete reports [False]. *)
Lemma share_token_delete_witness :
  let d := fun s => Json.JStr s in
  let dm := fun _ : rvalue => "x"%string in
  let w := snd (Reads.store_share_token "T" "{}" (Scenarios.empty_at 0)) in
  rd_up w = true /\
  (fst (Reads.delete_share_token "T" w) =
   Ok (match Facts.live_value (Reads.share_key "T") w with Some _ => true | None => false end) /\
   Reads.get_share_token_data d dm "T" (snd (Reads.delete_share_token "T" w)) =
   (Ok Json.JNull, snd (Reads.delete_share_token "T" w))) /\
  fst (Reads.delete_share_token "T" w) = Ok true /\
  fst (Reads.delete_share_token "T" (snd (Reads.delete_share_token "T" w))) = Ok false.
Proof.
  intros d dm w.
  assert (H : rd_up w = true) by reflexivity.
  split; [exact H|]. split; [exact (share_token_delete d dm "T" w H)|].
  split; vm_compute; reflexivity.
Defined.

End ContextTokenWitnesses.

(** ** Metadata freshness and the cleanup of keys without expiry *)
Section MetaCleanup.

(** X13: on a reachable Redis, [cache_conversation_metadata] returns [True]
    and writes the metadata key with the 30-day TTL, yet
    [get_cached_conversation_metadata] returns [None] in every state and
    changes nothing: the GET callback has already decoded the cached dict
    and the second [_deserialize_data] raises on it, so neither the cached
    fields nor the one-day freshness check (with its [delete]) is reached. *)
Theorem metadata_freshness id user title w :
  rd_up w = true ->
  let w1 := snd (RedisService.cache_conversation_metadata id user title w) in
  fst (RedisService.cache_conversation_metadata id user title w) = Ok (Some true) /\
  Redis.lookup (RedisService.get_metadata_key id) (rd w1) =
    Some (RMeta id user title (now w), Some (now w + RedisService.metadata_ttl)) /\
  (forall w', RedisService.get_cached_conversation_metadata id w' = (Ok None, w')).
Proof.
  intros Hu w1.
  assert (Hc : RedisService.cache_conversation_metadata id user title w =
               (Ok (Some true),
                set_rd w (Redis.put_key (RedisService.get_metadata_key id)
                            (RMeta id user title (now w),
                             Some (now w + RedisService.metadata_ttl)) (rd w)))).
  { unfold RedisService.cache_conversation_metadata, RedisService.handled, try_, bind, get_w.
    rewrite Facts.setex_eq by exact Hu. reflexivity. }
  unfold w1. rewrite Hc. cbn [fst snd rd set_rd]. split; [reflexivity|].
  split; [apply Facts.lookup_put_same|].
  intro w'. apply Facts.get_meta_none.
Qed.

Lemma delete_one_eq k w : rd_up w = true ->
  exists n, Redis.delete_one k w = (Ok n, set_rd w (Redis.remove_key k (rd w))).
Proof.
  intro H. cbv [Redis.delete_one Redis.get_entry Redis.guard bind get_w put_w ret].
  rewrite H. eexists. reflexivity.
Qed.

(** [DEL k1 k2 ...] removes exactly the listed keys. *)
Lemma delete_many ks w : rd_up w = true ->
  exists n w', Redis.delete ks w = (Ok n, w') /\ rd_up w' = true /\ now w' = now w /\
    forall k, Redis.lookup k (rd w') =
              if existsb (String.eqb k) ks then None else Redis.lookup k (rd w).
Proof.
  revert w. induction ks as [|k0 ks IH]; intros w Hu.
  - exists 0, w. cbv [Redis.delete Redis.guard bind ret]. rewrite Hu.
    repeat split; reflexivity.
  - destruct (delete_one_eq k0 w Hu) as [n0 D1].
    set (w1 := set_rd w (Redis.remove_key k0 (rd w))) in D1.
    destruct (IH w1 Hu) as (m & w' & E & Hu' & Hn & Hl).
    exists (n0 + m), w'. cbn [Redis.delete]. unfold bind at 1. rewrite D1.
    unfold bind. rewrite E. split; [reflexivity|]. split; [exact Hu'|].
    split; [exact Hn|].
    intro k. rewrite Hl. cbn [existsb]. unfold w1. rewrite rd_set_rd, Facts.lookup_remove.
    destruct (String.eqb k k0), (existsb (String.eqb k) ks); reflexivity.
Qed.

Lemma keys_eq pat w : rd_up w = true ->
  Redis.keys pat w =
  (Ok (map fst (filter (fun p => Redis.live w (snd p) && Py.glob_match pat (fst p)) (rd w))), w).
Proof. intro H. cbv [Redis.keys Redis.guard bind get_w ret]. rewrite H. reflexivity. Qed.

Lemma cleanup_eq w : rd_up w = true ->
  let expired := filter (fun k => Reads.ttl_of w k =? -1)
    (map fst (filter (fun p => Redis.live w (snd p) && Py.glob_match "pgpt:*" (fst p)) (rd w))) in
  exists w', Reads.cleanup_expired_keys w = (Ok (Z.of_nat (List.length expired)), w') /\
    now w' = now w /\
    forall k, Redis.lookup k (rd w') =
              if existsb (String.eqb k) expired then None else Redis.lookup k (rd w).
Proof.
  intros Hu expired.
  unfold Reads.cleanup_expired_keys, try_, bind at 1. rewrite keys_eq by exact Hu.
  fold expired.
  destruct (map fst _) as [|k1 ks] eqn:Ek.
  - exists w. subst expired. cbn. repeat split; reflexivity.
  - unfold bind, get_w. fold expired.
    destruct expired as [|x xs] eqn:Ex.
    + exists w. repeat split; reflexivity.
    + rewrite <- Ex.
      destruct (delete_many expired w Hu) as (n & w' & E & _ & Hn & Hl).
      exists w'. rewrite Ex in E |- *. rewrite E. rewrite <- Ex.
      split; [reflexivity|]. split; [exact Hn|]. exact Hl.
Qed.

Lemma live_value_same_lookup k w w' :
  now w' = now w -> Redis.lookup k (rd w') = Redis.lookup k (rd w) ->
  Facts.live_value k w' = Facts.live_value k w.
Proof.
  intros Hn Hl. unfold Facts.live_value, Redis.live. rewrite Hl, Hn. reflexivity.
Qed.

(** X14: on a reachable Redis, [cleanup_expired_keys] deletes every live key
    matching [pgpt:*] that has no expiry, and leaves every other key as it
    was. *)
Theorem cleanup_deletes_persistent_keys w :
  rd_up w = true ->
  let w' := snd (Reads.cleanup_expired_keys w) in
  (forall k v, Py.glob_match "pgpt:*" k = true -> Redis.lookup k (rd w) = Some (v, None) ->
     Facts.live_value k w' = None) /\
  (forall k, (Py.glob_match "pgpt:*" k = false \/
              forall v, Redis.lookup k (rd w) <> Some (v, None)) ->
     Facts.live_value k w' = Facts.live_value k w).
Proof.
  intros Hu w'.
  destruct (cleanup_eq w Hu) as (w1 & E & Hn & Hl).
  assert (Hw : w' = w1) by (unfold w'; rewrite E; reflexivity).
  rewrite Hw. clear w' Hw E.
  set (keys := map fst (filter (fun p => Redis.live w (snd p) && Py.glob_match "pgpt:*" (fst p))
                               (rd w))) in Hl.
  split.
  - intros k v Hg El.
    assert (Hin : In k (filter (fun k => Reads.ttl_of w k =? -1) keys)).
    { apply filter_In. split.
      - unfold keys. apply in_map_iff. exists (k, (v, None)). split; [reflexivity|].
        apply filter_In. split; [exact (lookup_in _ _ _ El)|].
        cbn [fst snd]. rewrite Hg. reflexivity.
      - unfold Reads.ttl_of. rewrite El. reflexivity. }
    unfold Facts.live_value. rewrite Hl.
    replace (existsb (String.eqb k) _) with true; [reflexivity|].
    symmetry. apply existsb_exists. exists k. split; [exact Hin|apply String.eqb_refl].
  - intros k Hk. apply live_value_same_lookup; [exact Hn|].
    rewrite Hl.
    destruct (existsb (String.eqb k) _) eqn:Eb; [|reflexivity].
    exfalso. apply existsb_exists in Eb. destruct Eb as (x & Hx & Ex).
    apply String.eqb_eq in Ex. subst x.
    apply filter_In in Hx. destruct Hx as [Hk1 Ht].
    unfold keys in Hk1. apply in_map_iff in Hk1. destruct Hk1 as ([k' e'] & Hf & Hp).
    cbn [fst] in Hf. subst k'. apply filter_In in Hp. destruct Hp as [_ Hp].
    cbn [fst snd] in Hp. apply andb_true_iff in Hp. destruct Hp as [_ Hg].
    unfold Reads.ttl_of in Ht.
    destruct (Redis.lookup k (rd w)) as [[v [t|]]|] eqn:El; [| |discriminate].
    + destruct (Redis.live w (v, Some t)) eqn:Lv; [|discriminate].
      unfold Redis.live in Lv. cbn [snd] in Lv, Ht. apply Z.ltb_lt in Lv.
      apply Z.eqb_eq in Ht. lia.
    + destruct Hk as [Hk|Hk]; [congruence|]. exact (Hk v eq_refl).
Qed.

End MetaCleanup.

Section MetaCleanupWitnesses.

(** Metadata cached at time 0 and read one hour later. *)
Lemma metadata_freshness_witness :
  let w := Scenarios.empty_at 0 in
  let w1 := snd (RedisService.cache_conversation_metadata "M" "U" "main" w) in
  rd_up w = true /\
  (fst (RedisService.cache_conversation_metadata "M" "U" "main" w) = Ok (Some true) /\
   Redis.lookup (RedisService.get_metadata_key "M") (rd w1) =
     Some (RMeta "M" "U" "main" (now w), Some (now w + RedisService.metadata_ttl)) /\
   (forall w', RedisService.get_cached_conversation_metadata "M" w' = (Ok None, w'))) /\
  fst (RedisService.get_cached_conversation_metadata "M" (Scenarios.tick w1 3600)) = Ok None.
Proof.
  intros w w1.
  assert (H1 : rd_up w = true) by reflexivity.
  split; [exact H1|].
  split; [exact (metadata_freshness "M" "U" "main" w H1)|].
  vm_compute. reflexivity.
Defined.

(** A message list stored without expiry, a metadata key with one, and a key
    outside [pgpt:*]: only the first is deleted. *)
Lemma cleanup_deletes_persistent_keys_witness :
  let kc := RedisService.get_conversation_key "U" "M" in
  let km := RedisService.get_metadata_key "M" in
  let w := mkWorld 0 true [] [] true
             [(kc, (RList ["m"%string], None));
              (km, (RMeta "M" "U" "main" 0, Some 100));
              ("other"%string, (RStr "x", None))] [] in
  let w' := snd (Reads.cleanup_expired_keys w) in
  rd_up w = true /\
  ((forall k v, Py.glob_match "pgpt:*" k = true -> Redis.lookup k (rd w) = Some (v, None) ->
      Facts.live_value k w' = None) /\
   (forall k, (Py.glob_match "pgpt:*" k = false \/
               forall v, Redis.lookup k (rd w) <> Some (v, None)) ->
      Facts.live_value k w' = Facts.live_value k w)) /\
  fst (Reads.cleanup_expired_keys w) = Ok 1 /\
  Facts.live_value kc w' = None /\
  Facts.live_value km w' = Some (RMeta "M" "U" "main" 0) /\
  Facts.live_value "other" w' = Some (RStr "x").
Proof.
  intros kc km w w'.
  assert (H : rd_up w = true) by reflexivity.
  split; [exact H|]. split; [exact (cleanup_deletes_persistent_keys w H)|].
  repeat split; vm_compute; reflexivity.
Defined.

End MetaCleanupWitnesses.

(** ** Reading a conversation twice *)
Section ReadTwice.

Lemma get_conversation_fills_cache id c w w1 :
  (List.length (lc w) <= 100)%nat -> cid c = id ->
  Chat.get_conversation id w = (Ok (Some c), w1) ->
  Chat.dict_get id (lc w1) = Some c.
Proof.
  intros Hl Hc H.
  unfold Chat.get_conversation, Chat.get_cached_conversation, try_, bind, get_w, ret in H.
  cbv beta iota zeta in H.
  destruct (Chat.dict_get id (lc w)) as [c0|] eqn:G0.
  - injection H as <- <-. exact G0.
  - destruct (RedisService.get_cached_conversation_metadata id w) as [o2 w2] eqn:E2.
    assert (L2 : lc w2 = lc w)
      by (pose proof (Facts.keep_get_meta id w) as K; rewrite E2 in K; exact K).
    destruct o2 as [[[[i u] t]|]| |]; cbv beta iota zeta in H; try discriminate H.
    + rewrite cache_conversation_eq in H. injection H as <- <-.
      cbn [lc set_lc]. rewrite L2, <- Hc.
      exact (proj2 (lc_insert_bounded _ _ Hl)).
    + destruct (Weaviate.get_conv id w2) as [o3 w3] eqn:E3.
      assert (L3 : lc w3 = lc w2)
        by (pose proof (Facts.keep_get_conv id w2) as K; rewrite E3 in K; exact K).
      destruct o3 as [[c'|]| |]; cbv beta iota zeta in H; try discriminate H.
      destruct (RedisService.cache_conversation_metadata (cid c') (cuser c') (ctitle c') w3)
        as [o4 w4] eqn:E4.
      assert (L4 : lc w4 = lc w3)
        by (pose proof (Facts.keep_cache_meta (cid c') (cuser c') (ctitle c') w3) as K;
            rewrite E4 in K; exact K).
      destruct o4; cbv beta iota zeta in H; try discriminate H.
      rewrite cache_conversation_eq in H. injection H as <- <-.
      cbn [lc set_lc]. rewrite L4, L3, L2, <- Hc.
      exact (proj2 (lc_insert_bounded _ _ Hl)).
Qed.

(** X15: when the local cache holds at most 100 entries and
    [get_conversation] returns a conversation with the requested id, a second
    [get_conversation] of that id returns the same conversation from the local
    cache and changes nothing. *)
Theorem get_conversation_read_twice id c w w1 :
  (List.length (lc w) <= 100)%nat -> cid c = id ->
  Chat.get_conversation id w = (Ok (Some c), w1) ->
  Chat.get_conversation id w1 = (Ok (Some c), w1).
Proof.
  intros Hl Hc H.
  pose proof (get_conversation_fills_cache id c w w1 Hl Hc H) as G.
  unfold Chat.get_conversation, Chat.get_cached_conversation, try_, bind, get_w, ret.
  rewrite G. reflexivity.
Qed.

End ReadTwice.

(** [M] is read from [tree] with its local cache emptied: the first read
    misses the local cache, finds no usable Redis metadata and takes [M] from
    Weaviate; the second is a local-cache hit. *)
Lemma get_conversation_read_twice_witness :
  let w0 := set_lc Scenarios.tree [] in
  let w1 := snd (Chat.get_conversation "M" w0) in
  lc w0 = [] /\
  (List.length (lc w0) <= 100)%nat /\ cid Scenarios.convM = "M"%string /\
  Chat.get_conversation "M" w0 = (Ok (Some Scenarios.convM), w1) /\
  Chat.get_conversation "M" w1 = (Ok (Some Scenarios.convM), w1) /\
  lc w1 = [("M"%string, Scenarios.convM)].
Proof.
  intros w0 w1.
  assert (H1 : (List.length (lc w0) <= 100)%nat) by (vm_compute; lia).
  assert (H2 : cid Scenarios.convM = "M"%string) by reflexivity.
  assert (H3 : Chat.get_conversation "M" w0 = (Ok (Some Scenarios.convM), w1))
    by (vm_compute; reflexivity).
  split; [reflexivity|]. split; [exact H1|]. split; [exact H2|]. split; [exact H3|].
  split; [exact (get_conversation_read_twice "M" Scenarios.convM w0 w1 H1 H2 H3)|].
  vm_compute. reflexivity.
Defined.

(** ** Registering a sub chat, then listing the sub chats *)
Section HierarchyRoundTrip.





End HierarchyRoundTrip.

